(** * NibiruChain/price-feeder: a shallow embedding and its properties

    The development follows the Go packages of the repository:

    - [Go]            the fragments of the Go runtime and standard library the
                      code relies on (panics, [error], [time]);
    - [Types]         package [types] (prices, symbols, parameters);
    - [PriceProvider] package [feeder/priceprovider], with the goroutine of
                      a provider and its [Close] as a transition system;
    - [Feeder]        package [feeder];
    - [Keyring]       package [config], file keyring.go;
    - [Auth]          package [config], [GetAuth];
    - [Config]        package [config], the configuration and its checks.

    Definitions come first (Part I), the properties follow (Parts II and
    III). *)

From Stdlib Require Import ZArith Floats.PrimFloat Init.Byte Strings.Byte.
From stdpp Require Import gmap strings list fin_maps.

Local Open Scope Z_scope.
Set Warnings "-inexact-float".

(* ===================================================================== *)
(** * Part I: the embedding                                               *)
(* ===================================================================== *)

(** ** Go runtime and standard library *)
Module Go.

(** An [error] value is identified with its message. *)
Definition error : Type := string.

(** The outcome of a call: a normal return, a returned non-nil [error], or
    a panic unwinding through the caller. *)
Inductive result (A : Type) : Type :=
| Ok (a : A)
| Err (e : error)
| Panic (msg : string).
Arguments Ok {A} a.
Arguments Err {A} e.
Arguments Panic {A} msg.

Definition bind {A B : Type} (r : result A) (k : A → result B) : result B :=
  match r with
  | Ok a => k a
  | Err e => Err e
  | Panic msg => Panic msg
  end.

Definition returned {A : Type} (r : result A) : bool :=
  match r with Panic _ => false | _ => true end.

(** [time.Duration] is an [int64] count of nanoseconds. *)
Definition Duration : Type := Z.
Definition minDuration : Duration := - 2 ^ 63.
Definition maxDuration : Duration := 2 ^ 63 - 1.
Definition Second : Duration := 1000000000.

(** [time.Time]: an instant, in nanoseconds on the clock [time.Now] reads. *)
Definition Time : Type := Z.

(** The zero [time.Time] (January 1, year 1, 00:00 UTC), counted from the
    Unix epoch. *)
Definition zeroTime : Time := -62135596800 * Second.

(** [t.Sub(u)]: the difference, saturated to the range of [Duration]. *)
Definition time_Sub (t u : Time) : Duration :=
  if t - u <? minDuration then minDuration
  else if maxDuration <? t - u then maxDuration
  else t - u.

(** [time.Since(t)] is [time.Now().Sub(t)]; the reading of the clock is the
    argument [now]. *)
Definition time_Since (now t : Time) : Duration := time_Sub now t.

Global Instance byte_eq_dec : EqDecision byte := Byte.byte_eq_dec.

(** [bytes.Equal] on byte slices; a nil slice equals an empty one. *)
Definition bytes_Equal (a b : list byte) : bool :=
  bool_decide (a = b).

End Go.

Export Go.

(** [result] is a monad; [x ← r; k] sequences two calls. *)
Global Instance result_ret : MRet result := fun A a => Ok a.
Global Instance result_bind : MBind result := fun A B k r => Go.bind r k.

(** ** Package [common] of the chain: asset pairs *)

(** [common.AssetPair] of the chain's module: a comparable struct of two
    denominations, "ordered (base, quote) denomination pair" in section 3 of
    the spec; it is the key type of the pair-to-symbol maps. *)
Record AssetPair : Type := { Token0 : string; Token1 : string }.

Global Instance AssetPair_eq_dec : EqDecision AssetPair.
Proof. solve_decision. Defined.

Global Instance AssetPair_countable : Countable AssetPair.
Proof.
  refine (inj_countable'
            (fun p => (Token0 p, Token1 p))
            (fun t => {| Token0 := t.1; Token1 := t.2 |}) _).
  by intros [].
Defined.

(** The pairs the tests name, with the chain's denominations. *)
Definition Pair_BTC_NUSD : AssetPair := {| Token0 := "ubtc"; Token1 := "unusd" |}.
Definition Pair_ETH_NUSD : AssetPair := {| Token0 := "ueth"; Token1 := "unusd" |}.
Definition Pair_NIBI_NUSD : AssetPair := {| Token0 := "unibi"; Token1 := "unusd" |}.

(** ** Package [types] *)
Module Types.

(** Modelled from the spec: the declarations of package [types] are not
    among the translated files. [types.Symbol] is an "opaque
    exchange-specific ticker string" (section 3), [types.Symbols] a slice of
    them. *)
Definition Symbol : Type := string.
Definition Symbols : Type := list Symbol.

(** Modelled from the spec: the declaration of [types.RawPrice] is missing.
    "{price: number, observedAt: timestamp}" (section 3); the code reads the
    fields [Price] and [UpdateTime]. *)
Record RawPrice : Type := {
  RawPrice_Price : float;
  RawPrice_UpdateTime : Time;
}.

(** The zero value [types.RawPrice{}], what a map read yields for a missing
    key. *)
Definition RawPrice_zero : RawPrice :=
  {| RawPrice_Price := 0%float; RawPrice_UpdateTime := zeroTime |}.

(** Modelled from the spec: the declaration of [types.Price] is missing.
    "{pair, price (sentinel -1 means abstain), sourceName, valid: bool}"
    (section 3); the fields are those of the struct literals in [GetPrice]. *)
Record Price : Type := {
  Price_Pair : AssetPair;
  Price_Price : float;
  Price_SourceName : string;
  Price_Valid : bool;
}.

(** Modelled from the spec: the declarations of [types.Params] and
    [types.VotingPeriod] are missing. "{pairs: ordered sequence of AssetPair,
    votePeriodBlocks: integer}" and "{height: integer}" (section 3); the
    fields are those of the struct literals in feeder_test.go. *)
Record Params : Type := {
  Pairs : list AssetPair;
  VotePeriodBlocks : Z;
}.

Definition Params_zero : Params := {| Pairs := []; VotePeriodBlocks := 0 |}.

Record VotingPeriod : Type := { Height : Z }.

(** A [zerolog.Logger] is kept as the context fields attached to it. *)
Definition Logger : Type := list (string * string).

Definition Logger_Str (key val : string) (l : Logger) : Logger :=
  l ++ [(key, val)].

(** Modelled from the spec: the declaration of the interface
    [types.PriceProvider] is missing. As far as the feeder uses it
    (section 6): the answer of [GetPrice] for a pair. *)
Class PriceProviderI (T : Type) : Type := {
  GetPrice_of : T → AssetPair → Price;
}.

End Types.

Export Types.

(** A Go map read [v, ok := m[k]]: the stored value or the zero value, and
    whether the key is present. *)
Definition map_read `{Countable K} {V : Type} (zero : V) (m : gmap K V) (k : K)
  : V * bool :=
  match m !! k with
  | Some v => (v, true)
  | None => (zero, false)
  end.

(** ** Package [priceprovider] *)
Module PriceProvider.

(** What [GetPrice] does besides returning: log lines and the operations on
    [lastPricesMutex]. *)
Inductive effect : Type :=
| LogWarn (logger : Logger) (pair : AssetPair) (msg : string)
| MutexLock
| MutexUnlock.

Global Instance effect_eq_dec : EqDecision effect.
Proof. solve_decision. Defined.

(** *** The goroutine and [Close]: program points

    [newPriceProvider] starts [go pp.loop()]; a caller may later run
    [Close]; callers of [GetPrice] take and release the mutex. Each thread
    is a program counter, and a step of the whole is one statement of one
    thread, chosen by the scheduler. *)

(** Program points of [loop]. Its two [defer]s run in reverse order when it
    returns: [p.source.Close()], then [close(p.done)]. *)
Inductive loop_pc : Type :=
| AtSelect
| AtLock (updates : gmap Symbol RawPrice)
| AtWrite (updates : gmap Symbol RawPrice)
| AtUnlock
| AtSourceClose
| AtCloseDone
| Exited.

(** Program points of the caller of [Close]: before the call,
    at [close(p.stopSignal)], at [<-p.done], after the return, or unwinding
    from closing a closed channel. *)
Inductive close_pc : Type :=
| NotCalled
| AtCloseStopSignal
| AtReceiveDone
| Returned
| ClosePanicked.

Inductive owner : Type := Consumer | Reader.

(** The scheduler's choices. [SelectUpdates u]: the [select] of [loop]
    takes the batch [u] from the source's channel. *)
Inductive action : Type :=
| SelectUpdates (updates : gmap Symbol RawPrice)
| SelectStop
| LoopLock
| LoopWrite
| LoopUnlock
| LoopSourceClose
| LoopCloseDone
| CloseCall
| CloseStopSignal
| CloseReceiveDone
| ReaderLock
| ReaderUnlock.

Global Instance close_pc_eq_dec : EqDecision close_pc.
Proof. solve_decision. Defined.
Global Instance owner_eq_dec : EqDecision owner.
Proof. solve_decision. Defined.

Section priceprovider.

(** Declarations of the packages [types] and [sources] that are not part
    of the translated files: the staleness timeout [types.PriceTimeout],
    the interface [types.Source] with its constructor
    [sources.NewTickSource], the two update functions and the names of
    the two exchanges. *)
Variable PriceTimeout : Duration.
Variable Source : Type.
Variable FetchPricesFunc : Type.
Variable NewTickSource : Symbols → FetchPricesFunc → Logger → Source.
Variables BitfinexPriceUpdate BinancePriceUpdate : FetchPricesFunc.
Variables Bitfinex Binance : string.

(** The order in which a [range] loop visits the entries of a map is not
    specified by Go; it is a parameter, known only to visit every entry
    once. *)
Variable range : ∀ (K : Type) `{Countable K} (V : Type), gmap K V → list (K * V).
Hypothesis range_visits_once :
  ∀ (K : Type) `{Countable K} (V : Type) (m : gmap K V),
    range K V m ≡ₚ map_to_list m.

(** The struct [PriceProvider]. The channels [stopSignal] and [done] and
    the mutex belong to the concurrent part below. *)
Record PriceProvider : Type := {
  logger : Logger;
  source : Source;
  sourceName : string;
  pairToSymbolMapping : gmap AssetPair Symbol;
  lastPrices : gmap Symbol RawPrice;
}.

(** [isValid]: [found && time.Since(price.UpdateTime) < types.PriceTimeout]. *)
Definition isValid (now : Time) (price : RawPrice) (found : bool) : bool :=
  found && bool_decide (time_Since now (RawPrice_UpdateTime price) < PriceTimeout).

(** [GetPrice], with the clock reading [now]; the second component lists
    the effects in program order. *)
Definition GetPrice (p : PriceProvider) (now : Time) (pair : AssetPair)
  : Price * list effect :=
  match pairToSymbolMapping p !! pair with
  | None =>
      ({| Price_Pair := pair;
          Price_Price := (-1)%float;
          Price_SourceName := sourceName p;
          Price_Valid := false |},
       [LogWarn (logger p) pair "unknown nibiru pair"])
  | Some symbol =>
      let '(price, priceExists) := map_read RawPrice_zero (lastPrices p) symbol in
      ({| Price_Pair := pair;
          Price_Price := RawPrice_Price price;
          Price_SourceName := sourceName p;
          Price_Valid := isValid now price priceExists |},
       [MutexLock; MutexUnlock])
  end.

(** [symbolsFromPairToSymbolMapping]: one [append] per visited entry. *)
Definition symbolsFromPairToSymbolMapping (m : gmap AssetPair Symbol) : Symbols :=
  foldl (fun s kv => s ++ [kv.2]) [] (range AssetPair Symbol m).

(** [newPriceProvider]; the goroutine it starts is the state [started]
    below. *)
Definition newPriceProvider (src : Source) (name : string)
    (pairToSymbolsMap : gmap AssetPair Symbol) (lg : Logger) : PriceProvider :=
  {| logger := Logger_Str "source" name (Logger_Str "component" "price-provider" lg);
     source := src;
     sourceName := name;
     pairToSymbolMapping := pairToSymbolsMap;
     lastPrices := ∅ |}.

(** [NewPriceProvider]: the [switch] on the source name. *)
Definition NewPriceProvider (name : string)
    (pairToSymbolMap : gmap AssetPair Symbol) (lg : Logger) : result PriceProvider :=
  src ← (if bool_decide (name = Bitfinex) then
           Ok (NewTickSource (symbolsFromPairToSymbolMapping pairToSymbolMap)
                             BitfinexPriceUpdate lg)
         else if bool_decide (name = Binance) then
           Ok (NewTickSource (symbolsFromPairToSymbolMapping pairToSymbolMap)
                             BinancePriceUpdate lg)
         else Panic ("unknown price provider: " +:+ name));
  Ok (newPriceProvider src name pairToSymbolMap lg).

(** The body of the [case updates := <-p.source.PriceUpdates()] branch of
    [loop], between [Lock] and [Unlock]: one map write per entry of the
    batch. *)
Definition applyUpdates (updates cache : gmap Symbol RawPrice)
  : gmap Symbol RawPrice :=
  foldl (fun c kv => <[kv.1 := kv.2]> c) cache (range Symbol RawPrice updates).

(** *** The goroutine and [Close]: states and steps *)

(** The shared state: both channels (closed or not; nothing is ever sent
    on them), the mutex, the cache, and two counters kept for the
    statements below: calls of [source.Close()] and map writes. *)
Record state : Type := {
  pc_loop : loop_pc;
  pc_close : close_pc;
  stopSignal_closed : bool;
  done_closed : bool;
  mutex : option owner;
  cache : gmap Symbol RawPrice;
  source_closes : nat;
  cache_writes : nat;
}.

(** The state [newPriceProvider] leaves behind: the goroutine is started
    and reaches its [select]. *)
Definition started (p : PriceProvider) : state :=
  {| pc_loop := AtSelect;
     pc_close := NotCalled;
     stopSignal_closed := false;
     done_closed := false;
     mutex := None;
     cache := lastPrices p;
     source_closes := 0;
     cache_writes := 0 |}.

(** The provider as a caller of [GetPrice] finds it in the state [s]: the
    map [lastPrices] is the shared cache. *)
Definition in_state (p : PriceProvider) (s : state) : PriceProvider :=
  {| logger := logger p;
     source := source p;
     sourceName := sourceName p;
     pairToSymbolMapping := pairToSymbolMapping p;
     lastPrices := cache s |}.

Definition set_loop (pc : loop_pc) (s : state) : state :=
  {| pc_loop := pc; pc_close := pc_close s;
     stopSignal_closed := stopSignal_closed s; done_closed := done_closed s;
     mutex := mutex s; cache := cache s;
     source_closes := source_closes s; cache_writes := cache_writes s |}.

Definition set_close (pc : close_pc) (s : state) : state :=
  {| pc_loop := pc_loop s; pc_close := pc;
     stopSignal_closed := stopSignal_closed s; done_closed := done_closed s;
     mutex := mutex s; cache := cache s;
     source_closes := source_closes s; cache_writes := cache_writes s |}.

Definition set_mutex (m : option owner) (s : state) : state :=
  {| pc_loop := pc_loop s; pc_close := pc_close s;
     stopSignal_closed := stopSignal_closed s; done_closed := done_closed s;
     mutex := m; cache := cache s;
     source_closes := source_closes s; cache_writes := cache_writes s |}.

(** One step; [None] when the statement is not at its turn or blocks. *)
Definition step (a : action) (s : state) : option state :=
  match a, pc_loop s, pc_close s with
  (* loop: select *)
  | SelectUpdates u, AtSelect, _ => Some (set_loop (AtLock u) s)
  | SelectStop, AtSelect, _ =>
      if stopSignal_closed s then Some (set_loop AtSourceClose s) else None
  (* loop: p.lastPricesMutex.Lock() *)
  | LoopLock, AtLock u, _ =>
      match mutex s with
      | None => Some (set_mutex (Some Consumer) (set_loop (AtWrite u) s))
      | Some _ => None
      end
  (* loop: for symbol, price := range updates { p.lastPrices[symbol] = price } *)
  | LoopWrite, AtWrite u, _ =>
      Some {| pc_loop := AtUnlock; pc_close := pc_close s;
              stopSignal_closed := stopSignal_closed s;
              done_closed := done_closed s;
              mutex := mutex s;
              cache := applyUpdates u (cache s);
              source_closes := source_closes s;
              cache_writes := (cache_writes s + size u)%nat |}
  (* loop: p.lastPricesMutex.Unlock() *)
  | LoopUnlock, AtUnlock, _ => Some (set_mutex None (set_loop AtSelect s))
  (* loop: deferred p.source.Close() *)
  | LoopSourceClose, AtSourceClose, _ =>
      Some {| pc_loop := AtCloseDone; pc_close := pc_close s;
              stopSignal_closed := stopSignal_closed s;
              done_closed := done_closed s;
              mutex := mutex s; cache := cache s;
              source_closes := S (source_closes s);
              cache_writes := cache_writes s |}
  (* loop: deferred close(p.done) *)
  | LoopCloseDone, AtCloseDone, _ =>
      Some {| pc_loop := Exited; pc_close := pc_close s;
              stopSignal_closed := stopSignal_closed s;
              done_closed := true;
              mutex := mutex s; cache := cache s;
              source_closes := source_closes s;
              cache_writes := cache_writes s |}
  (* Close is called *)
  | CloseCall, _, NotCalled => Some (set_close AtCloseStopSignal s)
  (* Close: close(p.stopSignal) *)
  | CloseStopSignal, _, AtCloseStopSignal =>
      if stopSignal_closed s then Some (set_close ClosePanicked s)
      else Some {| pc_loop := pc_loop s; pc_close := AtReceiveDone;
                   stopSignal_closed := true;
                   done_closed := done_closed s;
                   mutex := mutex s; cache := cache s;
                   source_closes := source_closes s;
                   cache_writes := cache_writes s |}
  (* Close: <-p.done *)
  | CloseReceiveDone, _, AtReceiveDone =>
      if done_closed s then Some (set_close Returned s) else None
  (* GetPrice of some caller: Lock, read, Unlock *)
  | ReaderLock, _, _ =>
      match mutex s with
      | None => Some (set_mutex (Some Reader) s)
      | Some _ => None
      end
  | ReaderUnlock, _, _ =>
      match mutex s with
      | Some Reader => Some (set_mutex None s)
      | _ => None
      end
  | _, _, _ => None
  end.

(** A schedule is run step by step; it fails at the first step that is
    not enabled. *)
Fixpoint exec (schedule : list action) (s : state) : option state :=
  match schedule with
  | [] => Some s
  | a :: rest =>
      match step a s with
      | Some s' => exec rest s'
      | None => None
      end
  end.

(** *** The goroutine and [Close]: what reachable states satisfy *)

(** [loop] has left its [for] and runs its deferred calls, or is gone. *)
Definition consumer_returned (pc : loop_pc) : bool :=
  match pc with
  | AtSourceClose | AtCloseDone | Exited => true
  | _ => false
  end.

(** [loop] is between its [Lock] and its [Unlock]. *)
Definition consumer_locked (pc : loop_pc) : bool :=
  match pc with
  | AtWrite _ | AtUnlock => true
  | _ => false
  end.

(** What every reachable state satisfies: the stop channel is closed
    exactly once [Close] is past its first statement, which never
    panics; [loop] only returns after the stop signal; the source is
    closed once [loop] is past its first deferred call and not before;
    [done] is closed exactly when [loop] is gone; [Close] only returns
    on a closed [done]; and the mutex is the consumer's exactly between
    its [Lock] and [Unlock]. *)
Definition inv (s : state) : Prop :=
  stopSignal_closed s =
    match pc_close s with NotCalled | AtCloseStopSignal => false | _ => true end
  ∧ pc_close s ≠ ClosePanicked
  ∧ (consumer_returned (pc_loop s) = true → stopSignal_closed s = true)
  ∧ source_closes s =
      match pc_loop s with AtCloseDone | Exited => 1%nat | _ => 0%nat end
  ∧ done_closed s = match pc_loop s with Exited => true | _ => false end
  ∧ (pc_close s = Returned → done_closed s = true)
  ∧ (mutex s = Some Consumer ↔ consumer_locked (pc_loop s) = true).

(** The schedule that lets a provider wind down from a state: [loop]
    finishes the batch it holds, [Close] is called and signals, [loop] takes
    the stop branch and runs its deferred calls, [Close] receives. *)
Definition wind_down (s : state) : list action :=
  match pc_loop s with
  | AtLock _ =>
      match mutex s with Some Reader => [ReaderUnlock] | _ => [] end
      ++ [LoopLock; LoopWrite; LoopUnlock]
  | AtWrite _ => [LoopWrite; LoopUnlock]
  | AtUnlock => [LoopUnlock]
  | _ => []
  end
  ++ match pc_close s with
     | NotCalled => [CloseCall; CloseStopSignal]
     | AtCloseStopSignal => [CloseStopSignal]
     | _ => []
     end
  ++ match pc_loop s with
     | AtSourceClose => [LoopSourceClose; LoopCloseDone]
     | AtCloseDone => [LoopCloseDone]
     | Exited => []
     | _ => [SelectStop; LoopSourceClose; LoopCloseDone]
     end
  ++ match pc_close s with
     | Returned => []
     | _ => [CloseReceiveDone]
     end.

End priceprovider.

(** Case analysis on one step: the action, both program points, and the
    tests the step makes. *)
Ltac step_cases a s Hstep :=
  destruct s as [pl pc st dn mx ca sc cw];
  destruct a, pl, pc; simpl in Hstep; try discriminate Hstep;
  repeat match type of Hstep with
         | context [if ?b then _ else _] => destruct b eqn:?
         | context [match ?m with Some _ => _ | None => _ end] => destruct m eqn:?
         | context [match ?o with Consumer => _ | Reader => _ end] => destruct o eqn:?
         end;
  try discriminate Hstep;
  injection Hstep as <-.

Arguments started {Source} p.
Arguments in_state {Source} p s.
Arguments logger {Source} p.
Arguments source {Source} p.
Arguments sourceName {Source} p.
Arguments pairToSymbolMapping {Source} p.
Arguments lastPrices {Source} p.

End PriceProvider.

(** ** Package [feeder] *)
Module Feeder.

(** Modelled from the spec: feeder.go is missing. The calls the feeder makes
    on its collaborators (section 6), in program order. *)
Inductive call : Type :=
| GetPriceCall (pair : AssetPair)
| SendPricesCall (vp : VotingPeriod) (prices : list Price).

(** Modelled from the spec: the interface [types.EventStream] is not among
    the translated files. What it delivers (section 6). *)
Inductive event : Type :=
| ParamsUpdate (p : Params)
| VotingPeriodStarted (vp : VotingPeriod).

(** The mock of feeder_test.go: the answers set up with
    [EXPECT().GetPrice(pair).Return(price)]. *)
Definition MockPriceProvider : Type := AssetPair → Price.

Global Instance MockPriceProvider_provider : PriceProviderI MockPriceProvider :=
  {| GetPrice_of := fun mock pair => mock pair |}.

Section feeder.

Context {PP : Type} `{!PriceProviderI PP}.

(** Modelled from the spec: feeder.go is not among the translated files,
    only feeder_test.go is. The feeder holds its price provider and the
    current parameters (section 4.3; the test builds it with
    [params: types.Params{}]). *)
Record Feeder : Type := {
  priceProvider : PP;
  params : Params;
}.

(** Modelled from the spec: feeder.go is missing. "On a parameter update:
    atomically replaces the held Params" (section 4.3). *)
Definition handleParamsUpdate (f : Feeder) (p : Params) : Feeder :=
  {| priceProvider := priceProvider f; params := p |}.

(** Modelled from the spec: feeder.go is missing. "valid=false, price
    forced to the abstain convention" (section 8); the convention is the
    one of TestVotingPeriod, [abstainPrice.Price = 0.0]. *)
Definition abstain (price : Price) : Price :=
  if Price_Valid price then price
  else {| Price_Pair := Price_Pair price;
          Price_Price := 0%float;
          Price_SourceName := Price_SourceName price;
          Price_Valid := Price_Valid price |}.

(** Modelled from the spec: feeder.go is missing. "for each pair in the
    current Params.pairs, queries the pair's PriceProvider via GetPrice,
    preserving Params.pairs order in the resulting vote list [...] Hands
    the ordered vote list and the triggering height to
    PricePoster.SendPrices" (section 4.3). The loop keeps the votes
    gathered so far and the calls made so far. *)
Definition gatherPrices (f : Feeder) : list Price * list call :=
  foldl (fun acc pair =>
           let price := GetPrice_of (priceProvider f) pair in
           (acc.1 ++ [abstain price], acc.2 ++ [GetPriceCall pair]))
        ([], []) (Pairs (params f)).

(** Modelled from the spec: feeder.go is missing. The handler of a
    voting-period-start event (section 4.3): gather, then one call of
    [SendPrices]. *)
Definition handleVotingPeriod (f : Feeder) (vp : VotingPeriod) : list call :=
  let '(prices, calls) := gatherPrices f in
  calls ++ [SendPricesCall vp prices].

(** The vote for one pair, for the statements below: the provider's answer,
    abstained when invalid. *)
Definition vote (f : Feeder) (pair : AssetPair) : Price :=
  abstain (GetPrice_of (priceProvider f) pair).

(** Modelled from the spec: feeder.go is missing. One iteration of the
    reactive loop (section 4.3: "all reactions happen inline within one
    iteration"). *)
Definition react (f : Feeder) (e : event) : Feeder * list call :=
  match e with
  | ParamsUpdate p => (handleParamsUpdate f p, [])
  | VotingPeriodStarted vp => (f, handleVotingPeriod f vp)
  end.

(** Modelled from the spec: feeder.go is missing. The reactive loop over the
    events delivered, in their order (section 4.3). *)
Fixpoint loop (f : Feeder) (events : list event) : Feeder * list call :=
  match events with
  | [] => (f, [])
  | e :: rest =>
      let '(f', calls) := react f e in
      let '(f'', calls') := loop f' rest in
      (f'', calls ++ calls')
  end.

(** Modelled from the spec: feeder.go is missing. A feeder to which no
    parameter update has been delivered yet: it holds no pair ("zero
    configured pairs", section 4.3). *)
Definition NewFeeder (pp : PP) : Feeder :=
  {| priceProvider := pp; params := Params_zero |}.

End feeder.

Arguments Feeder PP : clear implicits.

End Feeder.

(** ** Package [config]: the keyring of a single private key *)
Module Keyring.

(** [sdk.Address] values are byte slices. *)
Definition Address : Type := list byte.

(** [Empty]: nil or of length zero. *)
Definition Address_Empty (aa : Address) : bool :=
  bool_decide (aa = []).

(** [aa.Equals(aa2)] of the address types of the SDK. *)
Definition Address_Equals (aa aa2 : Address) : bool :=
  if Address_Empty aa && Address_Empty aa2 then true
  else bytes_Equal aa aa2.

Section keyring.

(** The key types of the SDK and what the keyring asks of them:
    [privKey.PubKey()], [pubKey.Address()], [privKey.Sign(msg)] and the
    struct literal [&secp256k1.PrivKey{Key: b}]; the hexadecimal decoder;
    and the types that only occur in signatures of methods. *)
Variables PubKey PrivKey : Type.
Variable PrivKey_PubKey : PrivKey → PubKey.
Variable PubKey_Address : PubKey → Address.
Variable PrivKey_Sign : PrivKey → list byte → list byte + error.
Variable secp256k1_PrivKey : list byte → PrivKey.
Variable hex_DecodeString : string → list byte + error.
Variables Language SignatureAlgo SigningAlgoList PubKeyType BIP44Params : Type.

(** The structs [privKeyKeyring] and [info]. *)
Record privKeyKeyring : Type := {
  addr : Address;
  pubKey : PubKey;
  privKey : PrivKey;
}.

Record info : Type := {
  info_pubKey : PubKey;
  info_addr : Address;
}.

Definition newPrivKeyKeyring (hexKey : string) : result privKeyKeyring :=
  match hex_DecodeString hexKey with
  | inr err => Panic err
  | inl b =>
      let key := secp256k1_PrivKey b in
      Ok {| addr := PubKey_Address (PrivKey_PubKey key);
            pubKey := PrivKey_PubKey key;
            privKey := key |}
  end.

Definition KeyByAddress (p : privKeyKeyring) (address : Address) : result info :=
  if negb (Address_Equals address (addr p)) then Err "key not found"
  else Ok {| info_pubKey := pubKey p; info_addr := addr p |}.

Definition Key (p : privKeyKeyring) (uid : string) : result info :=
  KeyByAddress p (addr p).

Definition SignByAddress (p : privKeyKeyring) (address : Address) (msg : list byte)
  : result (list byte * PubKey) :=
  if negb (Address_Equals (addr p) address) then Err "key not found"
  else
    match PrivKey_Sign (privKey p) msg with
    | inr err => Err err
    | inl signed => Ok (signed, pubKey p)
    end.

Definition Sign (p : privKeyKeyring) (uid : string) (msg : list byte)
  : result (list byte * PubKey) :=
  SignByAddress p (addr p) msg.

Definition GetName (i : info) : string := "".
Definition GetPubKey (i : info) : PubKey := info_pubKey i.
Definition GetAddress (i : info) : Address := info_addr i.

(** "implementations that must never be called" *)

Definition List (p : privKeyKeyring) : result (list info) :=
  Panic "must never be called".

Definition SupportedAlgorithms (p : privKeyKeyring)
  : result (SigningAlgoList * SigningAlgoList) :=
  Panic "must never be called".

Definition GetPath (i : info) : result BIP44Params :=
  Panic "must never be called".

Definition GetAlgo (i : info) : result PubKeyType :=
  Panic "must never be called".

Definition Delete (p : privKeyKeyring) (uid : string) : result unit :=
  Panic "must never be called".

Definition DeleteByAddress (p : privKeyKeyring) (address : Address) : result unit :=
  Panic "must never be called".

Definition NewMnemonic (p : privKeyKeyring) (uid : string) (language : Language)
    (hdPath bip39Passphrase : string) (algo : SignatureAlgo)
  : result (info * string) :=
  Panic "must never be called".

Definition NewAccount (p : privKeyKeyring)
    (uid mnemonic bip39Passphrase hdPath : string) (algo : SignatureAlgo)
  : result info :=
  Panic "must never be called".

Definition SaveLedgerKey (p : privKeyKeyring) (uid : string) (algo : SignatureAlgo)
    (hrp : string) (coinType account index : Z) : result info :=
  Panic "must never be called".

Definition SavePubKey (p : privKeyKeyring) (uid : string) (pubkey : PubKey)
    (algo : PubKeyType) : result info :=
  Panic "must never be called".

Definition SaveMultisig (p : privKeyKeyring) (uid : string) (pubkey : PubKey)
  : result info :=
  Panic "must never be called".

Definition ImportPrivKey (p : privKeyKeyring) (uid armor passphrase : string)
  : result unit :=
  Panic "must never be called".

Definition ImportPubKey (p : privKeyKeyring) (uid armor : string) : result unit :=
  Panic "must never be called".

Definition ExportPubKeyArmor (p : privKeyKeyring) (uid : string) : result string :=
  Panic "must never be called".

Definition ExportPubKeyArmorByAddress (p : privKeyKeyring) (address : Address)
  : result string :=
  Panic "must never be called".

Definition ExportPrivKeyArmor (p : privKeyKeyring) (uid encryptPassphrase : string)
  : result string :=
  Panic "must never be called".

Definition ExportPrivKeyArmorByAddress (p : privKeyKeyring) (address : Address)
    (encryptPassphrase : string) : result string :=
  Panic "must never be called".

End keyring.

Arguments addr {PubKey PrivKey} p.
Arguments pubKey {PubKey PrivKey} p.
Arguments privKey {PubKey PrivKey} p.
Arguments info_pubKey {PubKey} i.
Arguments info_addr {PubKey} i.
Arguments KeyByAddress {PubKey PrivKey} p address.
Arguments Key {PubKey PrivKey} p uid.
Arguments SignByAddress {PubKey PrivKey} PrivKey_Sign p address msg.
Arguments Sign {PubKey PrivKey} PrivKey_Sign p uid msg.
Arguments GetName {PubKey} i.
Arguments GetPubKey {PubKey} i.
Arguments GetAddress {PubKey} i.
Arguments List {PubKey PrivKey} p.
Arguments SupportedAlgorithms {PubKey PrivKey} SigningAlgoList p.
Arguments GetPath {PubKey} BIP44Params i.
Arguments GetAlgo {PubKey} PubKeyType i.
Arguments Delete {PubKey PrivKey} p uid.
Arguments DeleteByAddress {PubKey PrivKey} p address.
Arguments NewMnemonic {PubKey PrivKey Language SignatureAlgo} p uid language
  hdPath bip39Passphrase algo.
Arguments NewAccount {PubKey PrivKey SignatureAlgo} p uid mnemonic
  bip39Passphrase hdPath algo.
Arguments SaveLedgerKey {PubKey PrivKey SignatureAlgo} p uid algo hrp coinType
  account index.
Arguments SavePubKey {PubKey PrivKey PubKeyType} p uid pubkey algo.
Arguments SaveMultisig {PubKey PrivKey} p uid pubkey.
Arguments ImportPrivKey {PubKey PrivKey} p uid armor passphrase.
Arguments ImportPubKey {PubKey PrivKey} p uid armor.
Arguments ExportPubKeyArmor {PubKey PrivKey} p uid.
Arguments ExportPubKeyArmorByAddress {PubKey PrivKey} p address.
Arguments ExportPrivKeyArmor {PubKey PrivKey} p uid encryptPassphrase.
Arguments ExportPrivKeyArmorByAddress {PubKey PrivKey} p address encryptPassphrase.

End Keyring.

(** ** Package [config]: [GetAuth] *)
Module Auth.

Section auth.

(** Besides the key types of [Keyring]: the seed and key derivation of
    the packages [bip39] and [hd], and the hexadecimal encoder. *)
Variables PubKey PrivKey : Type.
Variable PrivKey_PubKey : PrivKey → PubKey.
Variable PubKey_Address : PubKey → Keyring.Address.
Variable secp256k1_PrivKey : list byte → PrivKey.
Variable hex_DecodeString : string → list byte + error.
Variable hex_EncodeToString : list byte → string.
Variable bip39_NewSeed : string → string → list byte.
Variable hd_ComputeMastersFromSeed : list byte → list byte * list byte.
Variable hd_DerivePrivateKeyForPath : list byte → list byte → string → list byte + error.

(** [GetAuth]: the keyring, and its address twice, as [sdk.ValAddress] and
    as [sdk.AccAddress] (conversions of the same bytes). *)
Definition GetAuth (mnemonic : string)
  : result (Keyring.privKeyKeyring PubKey PrivKey * Keyring.Address * Keyring.Address) :=
  let seed := bip39_NewSeed mnemonic "" in
  let '(master, ch) := hd_ComputeMastersFromSeed seed in
  let path := "m/44'/118'/0'/0/0" in
  match hd_DerivePrivateKeyForPath master ch path with
  | inr err => Panic err
  | inl priv =>
      kr ← Keyring.newPrivKeyKeyring PubKey PrivKey PrivKey_PubKey PubKey_Address
             secp256k1_PrivKey hex_DecodeString (hex_EncodeToString priv);
      Ok (kr, Keyring.addr kr, Keyring.addr kr)
  end.

End auth.

End Auth.

(** ** Package [config]: the configuration read from the environment *)
Module Config.

(** The struct [Config]. *)
Record Config : Type := {
  ExchangesToPairToSymbolMap : gmap string (gmap AssetPair Symbol);
  GRPCEndpoint : string;
  WebsocketEndpoint : string;
  FeederMnemonic : string;
  ChainID : string;
}.

(** [Validate]; [None] is the nil error. *)
Definition Validate (c : Config) : option error :=
  if bool_decide (ChainID c = "") then Some "no chain id"
  else if bool_decide (FeederMnemonic c = "") then Some "no feeder mnemonic"
  else if bool_decide (WebsocketEndpoint c = "") then Some "no websocket endpoint"
  else if bool_decide (GRPCEndpoint c = "") then Some "no grpc endpoint"
  else None.

Section config.

(** What [Get] takes from outside: the environment as [os.Getenv] reads it
    once [godotenv.Load] has run (the empty string for an unset variable);
    [json.Unmarshal] into an empty [map[string]map[string]string], [None]
    when it returns an error; [common.NewAssetPair] of the chain's module,
    which [common.MustNewAssetPair] turns into a panic; and the visiting
    order of [range]. *)
Variable Getenv : string → string.
Variable json_Unmarshal : string → option (gmap string (gmap string string)).
Variable NewAssetPair : string → AssetPair + error.
Variable range : ∀ (K : Type) `{Countable K} (V : Type), gmap K V → list (K * V).

Definition MustNewAssetPair (pair : string) : result AssetPair :=
  match NewAssetPair pair with
  | inl assetPair => Ok assetPair
  | inr err => Panic err
  end.

(** The inner loop of [Get], over the symbols of one exchange, from the
    empty map of pairs. *)
Definition pairToSymbolMap (symbolMap : gmap string string)
  : result (gmap AssetPair Symbol) :=
  foldl (fun acc kv =>
           m ← acc;
           pair ← MustNewAssetPair kv.1;
           Ok (<[pair := kv.2]> m))
        (Ok ∅) (range string string symbolMap).

(** The outer loop of [Get], over the exchanges. *)
Definition exchangesToPairToSymbolMap (exchangeSymbolsMap : gmap string (gmap string string))
  : result (gmap string (gmap AssetPair Symbol)) :=
  foldl (fun acc kv =>
           m ← acc;
           inner ← pairToSymbolMap kv.2;
           Ok (<[kv.1 := inner]> m))
        (Ok ∅) (range string (gmap string string) exchangeSymbolsMap).

(** What a returned map of one exchange has to do with the symbols of the
    document: each of its entries comes from a symbol of the document, and
    each symbol of the document has its pair in it. *)
Definition pairs_of (symbolMap : gmap string string) (m : gmap AssetPair Symbol) : Prop :=
  (∀ pair sym, m !! pair = Some sym →
     ∃ s, symbolMap !! s = Some sym ∧ NewAssetPair s = inl pair)
  ∧ (∀ s sym, symbolMap !! s = Some sym →
       ∃ pair, NewAssetPair s = inl pair ∧ is_Some (m !! pair)).

(** [Get]: the pointer to the configuration ([None] is nil) and the error
    ([None] is nil), or a panic. *)
Definition Get : result (option Config * option error) :=
  match json_Unmarshal (Getenv "EXCHANGE_SYMBOLS_MAP") with
  | None => Ok (None, Some "failed to parse EXCHANGE_SYMBOLS_MAP: invalid json")
  | Some exchangeSymbolsMap =>
      m ← exchangesToPairToSymbolMap exchangeSymbolsMap;
      let conf :=
        {| ExchangesToPairToSymbolMap := m;
           GRPCEndpoint := Getenv "GRPC_ENDPOINT";
           WebsocketEndpoint := Getenv "WEBSOCKET_ENDPOINT";
           FeederMnemonic := Getenv "FEEDER_MNEMONIC";
           ChainID := Getenv "CHAIN_ID" |} in
      Ok (Some conf, Validate conf)
  end.

(** [MustGet]. *)
Definition MustGet : result (option Config) :=
  r ← Get;
  match r.2 with
  | Some err => Panic ("config error! check the environment: " +:+ err)
  | None => Ok r.1
  end.

End config.

End Config.

(** ** Concrete stand-ins

    The embedding is parametric in the declarations of other packages.
    This module fixes one choice of them, so that the definitions can be
    evaluated on concrete inputs. *)
Module Fixture.

Inductive FetchPricesFunc : Type := BitfinexPriceUpdate | BinancePriceUpdate.

Record TickSource : Type := {
  tick_symbols : Symbols;
  tick_fetch : FetchPricesFunc;
  tick_logger : Logger;
}.

Definition PriceTimeout : Duration := 15 * Second.
Definition Bitfinex : string := "bitfinex".
Definition Binance : string := "binance".

(** A [range] that visits the entries in the order of [map_to_list]. *)
Definition range (K : Type) `{Countable K} (V : Type) (m : gmap K V) : list (K * V) :=
  map_to_list m.

Definition NewPriceProvider :=
  PriceProvider.NewPriceProvider TickSource FetchPricesFunc Build_TickSource
    BitfinexPriceUpdate BinancePriceUpdate Bitfinex Binance (@range).

Definition GetPrice := PriceProvider.GetPrice PriceTimeout TickSource.

Definition mapping : gmap AssetPair Symbol :=
  {[ Pair_BTC_NUSD := "tBTCUSD"; Pair_ETH_NUSD := "tETHUSD" ]}.

(** A provider whose cache holds one tick, of tBTCUSD at 100000.8, observed
    at instant 1000 s. *)
Definition provider : PriceProvider.PriceProvider TickSource :=
  {| PriceProvider.logger := [("component", "price-provider"); ("source", "bitfinex")];
     PriceProvider.source := Build_TickSource ["tBTCUSD"; "tETHUSD"] BitfinexPriceUpdate [];
     PriceProvider.sourceName := "bitfinex";
     PriceProvider.pairToSymbolMapping := mapping;
     PriceProvider.lastPrices :=
       {[ "tBTCUSD" := {| RawPrice_Price := 100000.8%float;
                          RawPrice_UpdateTime := 1000 * Second |} ]} |}.

(** The prices of TestVotingPeriod and its mock. *)
Definition validPrice : Price :=
  {| Price_Pair := Pair_BTC_NUSD; Price_Price := 100000.8%float;
     Price_SourceName := "mock-source"; Price_Valid := true |}.

Definition invalidPrice : Price :=
  {| Price_Pair := Pair_ETH_NUSD; Price_Price := 7000.11%float;
     Price_SourceName := "mock-source"; Price_Valid := false |}.

Definition abstainPrice : Price :=
  {| Price_Pair := Pair_ETH_NUSD; Price_Price := 0%float;
     Price_SourceName := "mock-source"; Price_Valid := false |}.

Definition mockPriceProvider : Feeder.MockPriceProvider :=
  fun pair => if decide (pair = Pair_BTC_NUSD) then validPrice else invalidPrice.

(** A stand-in for the secp256k1 keys: the public key is the private key
    reversed, its address the public key itself, a signature the key
    followed by the message. *)
Definition PrivKey_PubKey (k : list byte) : list byte := reverse k.
Definition PubKey_Address (k : list byte) : Keyring.Address := k.
Definition PrivKey_Sign (k msg : list byte) : list byte + error := inl (k ++ msg).

Definition keyring : Keyring.privKeyKeyring (list byte) (list byte) :=
  {| Keyring.addr := [x02; x01];
     Keyring.pubKey := [x02; x01];
     Keyring.privKey := [x01; x02] |}.

(** [encoding/hex] for the stand-in keys: two lower-case digits per byte;
    the decoder takes digits of either case and fails on any other
    character and on an odd length. *)
Definition hex_digit (n : N) : Ascii.ascii :=
  nth (N.to_nat n) (String.list_ascii_of_string "0123456789abcdef")
    (Ascii.ascii_of_N 48).

Definition fromHexChar (c : Ascii.ascii) : option N :=
  let n := Ascii.N_of_ascii c in
  if (48 <=? n)%N && (n <=? 57)%N then Some (n - 48)%N
  else if (97 <=? n)%N && (n <=? 102)%N then Some (n - 87)%N
  else if (65 <=? n)%N && (n <=? 70)%N then Some (n - 55)%N
  else None.

Definition hex_of_byte (b : byte) : list Ascii.ascii :=
  [hex_digit (Byte.to_N b / 16); hex_digit (Byte.to_N b mod 16)].

Definition hex_EncodeToString (bs : list byte) : string :=
  String.string_of_list_ascii (concat (hex_of_byte <$> bs)).

Fixpoint hex_decode (cs : list Ascii.ascii) : list byte + error :=
  match cs with
  | [] => inl []
  | [c] =>
      match fromHexChar c with
      | Some _ => inr "encoding/hex: odd length hex string"
      | None => inr "encoding/hex: invalid byte"
      end
  | c1 :: c2 :: rest =>
      match fromHexChar c1, fromHexChar c2 with
      | Some a, Some b =>
          match Byte.of_N (a * 16 + b), hex_decode rest with
          | Some x, inl bs => inl (x :: bs)
          | _, inr err => inr err
          | None, _ => inr "encoding/hex: invalid byte"
          end
      | _, _ => inr "encoding/hex: invalid byte"
      end
  end.

Definition hex_DecodeString (s : string) : list byte + error :=
  hex_decode (String.list_ascii_of_string s).

(** Stand-ins for the seed and the key derivation: the seed is the bytes of
    the mnemonic, the master key the seed, and the derivation fails on an
    empty master key. *)
Definition bip39_NewSeed (mnemonic passphrase : string) : list byte :=
  String.list_byte_of_string (mnemonic +:+ passphrase).
Definition hd_ComputeMastersFromSeed (seed : list byte) : list byte * list byte :=
  (seed, reverse seed).
Definition hd_DerivePrivateKeyForPath (master ch : list byte) (path : string)
  : list byte + error :=
  match master with
  | [] => inr "empty master key"
  | _ => inl (master ++ ch)
  end.

Definition GetAuth :=
  Auth.GetAuth (list byte) (list byte) PrivKey_PubKey PubKey_Address
    (fun b => b) hex_DecodeString hex_EncodeToString
    bip39_NewSeed hd_ComputeMastersFromSeed hd_DerivePrivateKeyForPath.

(** An environment, a parser that knows two documents, and the pair syntax
    [base:quote] of the chain. *)
Definition dquote : string := String (Ascii.ascii_of_N 34) EmptyString.

Definition json_of (exchange pair symbol : string) : string :=
  "{" +:+ dquote +:+ exchange +:+ dquote +:+ ":{" +:+ dquote +:+ pair +:+ dquote
  +:+ ":" +:+ dquote +:+ symbol +:+ dquote +:+ "}}".

Definition Getenv (name : string) : string :=
  if decide (name = "CHAIN_ID") then "nibiru-localnet-0"
  else if decide (name = "GRPC_ENDPOINT") then "localhost:9090"
  else if decide (name = "WEBSOCKET_ENDPOINT") then "ws://localhost:26657/websocket"
  else if decide (name = "FEEDER_MNEMONIC") then "guard cream sadness"
  else if decide (name = "EXCHANGE_SYMBOLS_MAP") then
    json_of "bitfinex" "ubtc:unusd" "tBTCUSD"
  else "".

Definition json_Unmarshal (doc : string) : option (gmap string (gmap string string)) :=
  if decide (doc = json_of "bitfinex" "ubtc:unusd" "tBTCUSD") then
    Some {[ "bitfinex" := {[ "ubtc:unusd" := "tBTCUSD" ]} ]}
  else if decide (doc = json_of "bitfinex" "ubtc" "tBTCUSD") then
    Some {[ "bitfinex" := {[ "ubtc" := "tBTCUSD" ]} ]}
  else None.

Fixpoint split_colon (before : string) (s : string) : option (string * string) :=
  match s with
  | EmptyString => None
  | String c rest =>
      if decide (c = Ascii.ascii_of_N 58) then Some (before, rest)
      else split_colon (before +:+ String c EmptyString) rest
  end.

Definition NewAssetPair (pair : string) : AssetPair + error :=
  match split_colon "" pair with
  | Some (base, quote) =>
      if decide (base = "") then inr ("invalid pair: " +:+ pair)
      else if decide (quote = "") then inr ("invalid pair: " +:+ pair)
      else if bool_decide (is_Some (split_colon "" quote)) then inr ("invalid pair: " +:+ pair)
      else inl {| Token0 := base; Token1 := quote |}
  | None => inr ("invalid pair: " +:+ pair)
  end.

Definition Get := Config.Get Getenv json_Unmarshal NewAssetPair (@range).
Definition MustGet := Config.MustGet Getenv json_Unmarshal NewAssetPair (@range).


End Fixture.

(* ===================================================================== *)
(** * Part II: properties                                                 *)
(* ===================================================================== *)

(** ** The clock *)

Lemma time_Since_exact (now t : Time) :
  minDuration ≤ now - t ≤ maxDuration → time_Since now t = now - t.
Proof.
  intros [Hlo Hhi]. unfold time_Since, time_Sub.
  destruct (Z.ltb_spec (now - t) minDuration); [lia|].
  destruct (Z.ltb_spec maxDuration (now - t)); [lia|done].
Qed.

Lemma time_Since_range (now t : Time) :
  minDuration ≤ time_Since now t ≤ maxDuration.
Proof.
  unfold time_Since, time_Sub.
  destruct (Z.ltb_spec (now - t) minDuration).
  - unfold minDuration, maxDuration. lia.
  - destruct (Z.ltb_spec maxDuration (now - t)); unfold minDuration, maxDuration in *; lia.
Qed.

(** ** [GetPrice] *)
Section GetPrice_properties.

Variable PriceTimeout : Duration.
Variable Source : Type.

Local Abbreviation PriceProvider := (PriceProvider.PriceProvider Source).
Local Abbreviation GetPrice := (PriceProvider.GetPrice PriceTimeout Source).
Local Abbreviation isValid := (PriceProvider.isValid PriceTimeout).

Implicit Types (p : PriceProvider) (now : Time) (pair : AssetPair).

Lemma isValid_true now raw found :
  isValid now raw found = true ↔
  found = true ∧ time_Since now (RawPrice_UpdateTime raw) < PriceTimeout.
Proof.
  unfold PriceProvider.isValid.
  rewrite andb_true_iff, bool_decide_eq_true. done.
Qed.

(** C1. For a pair that has a symbol in the mapping, [GetPrice] answers
    with the raw cached price of that symbol: zero when the cache has no
    entry, the stored value otherwise, whatever its age. The answer is
    valid exactly when the cache has an entry and the time since its
    update is strictly below the timeout. *)
Theorem GetPrice_mapped p now pair symbol :
  PriceProvider.pairToSymbolMapping p !! pair = Some symbol →
  Price_Pair (GetPrice p now pair).1 = pair
  ∧ Price_SourceName (GetPrice p now pair).1 = PriceProvider.sourceName p
  ∧ Price_Price (GetPrice p now pair).1 =
      match PriceProvider.lastPrices p !! symbol with
      | Some raw => RawPrice_Price raw
      | None => 0%float
      end
  ∧ (Price_Valid (GetPrice p now pair).1 = true ↔
     ∃ raw, PriceProvider.lastPrices p !! symbol = Some raw
            ∧ time_Since now (RawPrice_UpdateTime raw) < PriceTimeout).
Proof.
  intros Hmapped. unfold PriceProvider.GetPrice, map_read. rewrite Hmapped.
  destruct (PriceProvider.lastPrices p !! symbol) as [raw|] eqn:Hcache;
    cbn [fst Price_Pair Price_SourceName Price_Price Price_Valid].
  - repeat split; try done.
    + rewrite isValid_true. intros [_ Hfresh]. eauto.
    + intros (raw' & [= <-] & Hfresh). by rewrite isValid_true.
  - repeat split; try done. intros (raw & [=] & _).
Qed.

(** A stale entry keeps its price: only the flag changes. *)
Lemma GetPrice_stale p now pair symbol raw :
  PriceProvider.pairToSymbolMapping p !! pair = Some symbol →
  PriceProvider.lastPrices p !! symbol = Some raw →
  PriceTimeout ≤ time_Since now (RawPrice_UpdateTime raw) →
  (GetPrice p now pair).1 =
    {| Price_Pair := pair; Price_Price := RawPrice_Price raw;
       Price_SourceName := PriceProvider.sourceName p; Price_Valid := false |}.
Proof.
  intros Hmapped Hcache Hold.
  unfold PriceProvider.GetPrice, map_read. rewrite Hmapped, Hcache. simpl.
  f_equal. unfold PriceProvider.isValid. simpl.
  apply bool_decide_eq_false. lia.
Qed.

(** A mapped symbol is read under the mutex. *)
Lemma GetPrice_mapped_effects p now pair symbol :
  PriceProvider.pairToSymbolMapping p !! pair = Some symbol →
  (GetPrice p now pair).2 = [PriceProvider.MutexLock; PriceProvider.MutexUnlock].
Proof.
  intros Hmapped. unfold PriceProvider.GetPrice. rewrite Hmapped.
  by destruct (map_read _ _ _).
Qed.

(** C2. For a pair without a symbol in the mapping, [GetPrice] returns the
    abstain price: the pair, -1, the provider's source name, not valid. It
    logs a warning and does not touch the mutex. *)
Theorem GetPrice_unmapped p now pair :
  PriceProvider.pairToSymbolMapping p !! pair = None →
  (GetPrice p now pair).1 =
    {| Price_Pair := pair; Price_Price := (-1)%float;
       Price_SourceName := PriceProvider.sourceName p; Price_Valid := false |}
  ∧ (GetPrice p now pair).2 =
      [PriceProvider.LogWarn (PriceProvider.logger p) pair "unknown nibiru pair"]
  ∧ (PriceProvider.MutexLock ∉ (GetPrice p now pair).2)
  ∧ (PriceProvider.MutexUnlock ∉ (GetPrice p now pair).2).
Proof.
  intros Hunmapped. unfold PriceProvider.GetPrice. rewrite Hunmapped. simpl.
  repeat split; try done.
  - intros Hin. apply list_elem_of_singleton in Hin. discriminate.
  - intros Hin. apply list_elem_of_singleton in Hin. discriminate.
Qed.

End GetPrice_properties.

(** The three kinds of answers, on the provider of [Fixture]: a fresh tick
    (10 s old), the same tick once stale (1000 s old), a symbol never seen,
    and a pair outside the mapping. *)
Example GetPrice_fresh_tick :
  (Fixture.GetPrice Fixture.provider (1010 * Second) Pair_BTC_NUSD).1 =
    {| Price_Pair := Pair_BTC_NUSD; Price_Price := 100000.8%float;
       Price_SourceName := "bitfinex"; Price_Valid := true |}.
Proof. vm_compute. reflexivity. Qed.

Example GetPrice_stale_tick :
  (Fixture.GetPrice Fixture.provider (2000 * Second) Pair_BTC_NUSD).1 =
    {| Price_Pair := Pair_BTC_NUSD; Price_Price := 100000.8%float;
       Price_SourceName := "bitfinex"; Price_Valid := false |}.
Proof. vm_compute. reflexivity. Qed.

Example GetPrice_boundary_tick :
  Price_Valid (Fixture.GetPrice Fixture.provider (1015 * Second) Pair_BTC_NUSD).1 = false
  ∧ Price_Valid (Fixture.GetPrice Fixture.provider (1015 * Second - 1) Pair_BTC_NUSD).1 = true.
Proof. vm_compute. done. Qed.

Example GetPrice_unseen_symbol :
  (Fixture.GetPrice Fixture.provider (1010 * Second) Pair_ETH_NUSD).1 =
    {| Price_Pair := Pair_ETH_NUSD; Price_Price := 0%float;
       Price_SourceName := "bitfinex"; Price_Valid := false |}.
Proof. vm_compute. reflexivity. Qed.

Example GetPrice_unknown_pair :
  (Fixture.GetPrice Fixture.provider (1010 * Second) Pair_NIBI_NUSD).1 =
    {| Price_Pair := Pair_NIBI_NUSD; Price_Price := (-1)%float;
       Price_SourceName := "bitfinex"; Price_Valid := false |}.
Proof. vm_compute. reflexivity. Qed.

(** [GetPrice_mapped] at the stale tick: the price is kept, the flag is off. *)
Lemma GetPrice_mapped_witness :
  PriceProvider.pairToSymbolMapping Fixture.provider !! Pair_BTC_NUSD = Some "tBTCUSD"
  ∧ Price_Price (Fixture.GetPrice Fixture.provider (2000 * Second) Pair_BTC_NUSD).1
    = 100000.8%float
  ∧ Price_Valid (Fixture.GetPrice Fixture.provider (2000 * Second) Pair_BTC_NUSD).1
    = false.
Proof.
  assert (Hmapped : PriceProvider.pairToSymbolMapping Fixture.provider !! Pair_BTC_NUSD
                    = Some "tBTCUSD") by (vm_compute; reflexivity).
  destruct (GetPrice_mapped Fixture.PriceTimeout Fixture.TickSource Fixture.provider
              (2000 * Second) Pair_BTC_NUSD "tBTCUSD" Hmapped)
    as (_ & _ & Hprice & Hvalid).
  split; [exact Hmapped|]. split.
  - etransitivity; [exact Hprice|]. vm_compute. reflexivity.
  - apply not_true_is_false. intros Htrue.
    apply Hvalid in Htrue as (raw & Hraw & Hfresh).
    vm_compute in Hraw. injection Hraw as <-.
    vm_compute in Hfresh. discriminate.
Defined.

(** [GetPrice_unmapped] at a pair the mapping of [Fixture] does not hold. *)
Lemma GetPrice_unmapped_witness :
  PriceProvider.pairToSymbolMapping Fixture.provider !! Pair_NIBI_NUSD = None
  ∧ (Fixture.GetPrice Fixture.provider (1010 * Second) Pair_NIBI_NUSD).1 =
      {| Price_Pair := Pair_NIBI_NUSD; Price_Price := (-1)%float;
         Price_SourceName := "bitfinex"; Price_Valid := false |}.
Proof.
  assert (Hunmapped : PriceProvider.pairToSymbolMapping Fixture.provider !! Pair_NIBI_NUSD
                      = None) by (vm_compute; reflexivity).
  split; [exact Hunmapped|].
  exact (proj1 (GetPrice_unmapped Fixture.PriceTimeout Fixture.TickSource Fixture.provider
                  (1010 * Second) Pair_NIBI_NUSD Hunmapped)).
Defined.

(** ** [range] loops over maps *)

(** Appending the second components, whatever was gathered before. *)
Lemma foldl_append_values {K V : Type} (l : list (K * V)) (acc : list V) :
  foldl (fun s kv => s ++ [kv.2]) acc l = acc ++ l.*2.
Proof.
  revert acc. induction l as [|kv l IH]; intros acc; simpl.
  - by rewrite app_nil_r.
  - rewrite IH. by rewrite <- app_assoc.
Qed.

(** Writing the entries of a list without repeated keys, one after the
    other, is the union with the map the list denotes. *)
Lemma foldl_insert_union `{Countable K} {V : Type} (l : list (K * V)) (c : gmap K V) :
  NoDup l.*1 →
  foldl (fun c kv => <[kv.1 := kv.2]> c) c l = list_to_map l ∪ c.
Proof.
  revert c. induction l as [|[k v] l IH]; intros c Hnodup.
  - simpl. by rewrite (left_id_L ∅ (∪)).
  - rewrite fmap_cons in Hnodup. apply NoDup_cons in Hnodup as [Hfresh Hnodup].
    cbn [foldl fst snd]. rewrite IH by done.
    change (list_to_map ((k, v) :: l)) with (<[k := v]> (list_to_map l : gmap K V)).
    rewrite <- insert_union_l. symmetry.
    apply insert_union_r. by apply not_elem_of_list_to_map_1.
Qed.

Section range_properties.

Variable PriceTimeout : Duration.
Variable Source : Type.
Variable FetchPricesFunc : Type.
Variable NewTickSource : Symbols → FetchPricesFunc → Logger → Source.
Variables BitfinexPriceUpdate BinancePriceUpdate : FetchPricesFunc.
Variables Bitfinex Binance : string.
Variable range : ∀ (K : Type) `{Countable K} (V : Type), gmap K V → list (K * V).
Hypothesis range_visits_once :
  ∀ (K : Type) `{Countable K} (V : Type) (m : gmap K V),
    range K V m ≡ₚ map_to_list m.

Local Abbreviation symbolsFromPairToSymbolMapping :=
  (PriceProvider.symbolsFromPairToSymbolMapping (@range)).
Local Abbreviation applyUpdates := (PriceProvider.applyUpdates (@range)).
Local Abbreviation newPriceProvider := (PriceProvider.newPriceProvider Source).
Local Abbreviation NewPriceProvider :=
  (PriceProvider.NewPriceProvider Source FetchPricesFunc NewTickSource
     BitfinexPriceUpdate BinancePriceUpdate Bitfinex Binance (@range)).

(** The symbols handed to the source are the values of the mapping, one
    per pair, in the order of the visit. *)
Lemma symbolsFromPairToSymbolMapping_values (m : gmap AssetPair Symbol) :
  symbolsFromPairToSymbolMapping m ≡ₚ (map_to_list m).*2.
Proof.
  unfold PriceProvider.symbolsFromPairToSymbolMapping.
  rewrite foldl_append_values. simpl.
  by rewrite range_visits_once.
Qed.

Lemma symbolsFromPairToSymbolMapping_elem (m : gmap AssetPair Symbol) (s : Symbol) :
  s ∈ symbolsFromPairToSymbolMapping m ↔ ∃ pair, m !! pair = Some s.
Proof.
  rewrite symbolsFromPairToSymbolMapping_values, list_elem_of_fmap. split.
  - intros ([pair s'] & -> & Hin). exists pair. by apply elem_of_map_to_list.
  - intros (pair & Hpair). exists (pair, s). split; [done|].
    by apply elem_of_map_to_list.
Qed.

Lemma symbolsFromPairToSymbolMapping_length (m : gmap AssetPair Symbol) :
  length (symbolsFromPairToSymbolMapping m) = size m.
Proof.
  rewrite symbolsFromPairToSymbolMapping_values, length_fmap.
  by rewrite length_map_to_list.
Qed.

(** A batch overwrites the entries of its symbols and leaves the others:
    the cache after the loop is the batch over the old cache. *)
Lemma applyUpdates_union (updates cache : gmap Symbol RawPrice) :
  applyUpdates updates cache = updates ∪ cache.
Proof.
  unfold PriceProvider.applyUpdates.
  pose proof (range_visits_once Symbol RawPrice updates) as Hperm.
  assert (Hnodup : NoDup (range Symbol RawPrice updates).*1).
  { rewrite Hperm. apply NoDup_fst_map_to_list. }
  rewrite foldl_insert_union by done.
  f_equal. rewrite (list_to_map_proper _ _ Hnodup Hperm).
  apply list_to_map_to_list.
Qed.

Lemma applyUpdates_lookup (updates cache : gmap Symbol RawPrice) (symbol : Symbol) :
  applyUpdates updates cache !! symbol =
    match updates !! symbol with
    | Some raw => Some raw
    | None => cache !! symbol
    end.
Proof.
  rewrite applyUpdates_union.
  destruct (updates !! symbol) as [raw|] eqn:Hu.
  - by apply lookup_union_Some_l.
  - by rewrite lookup_union_r.
Qed.

(** X5. What [GetPrice] answers after [loop] has written a batch: for a symbol
    of the batch its new price, for any other symbol the price as before. *)
Lemma GetPrice_after_write (p : PriceProvider.PriceProvider Source)
    (s s' : PriceProvider.state) (updates : gmap Symbol RawPrice)
    (now : Time) (pair : AssetPair) (symbol : Symbol) :
  PriceProvider.pairToSymbolMapping p !! pair = Some symbol →
  PriceProvider.pc_loop s = PriceProvider.AtWrite updates →
  PriceProvider.step (@range) PriceProvider.LoopWrite s = Some s' →
  Price_Price
    (PriceProvider.GetPrice PriceTimeout Source (PriceProvider.in_state p s') now pair).1
  = match updates !! symbol with
    | Some raw => RawPrice_Price raw
    | None =>
        Price_Price
          (PriceProvider.GetPrice PriceTimeout Source
             (PriceProvider.in_state p s) now pair).1
    end.
Proof.
  intros Hmapped Hpc Hstep.
  unfold PriceProvider.step in Hstep. rewrite Hpc in Hstep.
  injection Hstep as <-.
  unfold PriceProvider.GetPrice, map_read. simpl. rewrite Hmapped.
  rewrite applyUpdates_lookup.
  destruct (updates !! symbol) as [raw|]; [done|].
  by destruct (PriceProvider.cache s !! symbol).
Qed.

(** C10. [NewPriceProvider] panics on every source name other than the
    two exchange names. On an exchange name it returns the provider made
    by [newPriceProvider] around the tick source of that exchange, built
    from the symbols of the mapping: one symbol per pair of the mapping,
    and no other. *)
Theorem NewPriceProvider_sources (name : string) (m : gmap AssetPair Symbol)
    (lg : Logger) :
  (name ≠ Bitfinex → name ≠ Binance →
   NewPriceProvider name m lg = Panic ("unknown price provider: " +:+ name))
  ∧ (name = Bitfinex ∨ name = Binance →
     ∃ symbols,
       NewPriceProvider name m lg =
         Ok (newPriceProvider
               (NewTickSource symbols
                  (if decide (name = Bitfinex) then BitfinexPriceUpdate
                   else BinancePriceUpdate) lg)
               name m lg)
       ∧ symbols ≡ₚ (map_to_list m).*2
       ∧ (∀ s, s ∈ symbols ↔ ∃ pair, m !! pair = Some s)
       ∧ length symbols = size m).
Proof.
  unfold PriceProvider.NewPriceProvider. split.
  - intros Hbitfinex Hbinance.
    by rewrite !bool_decide_eq_false_2.
  - intros Hregistered. exists (symbolsFromPairToSymbolMapping m).
    split; [|split; [|split]].
    + destruct (decide (name = Bitfinex)) as [Hb|Hb].
      * by rewrite bool_decide_eq_true_2.
      * destruct Hregistered as [?|Hbinance]; [done|].
        rewrite bool_decide_eq_false_2 by done.
        by rewrite bool_decide_eq_true_2.
    + apply symbolsFromPairToSymbolMapping_values.
    + apply symbolsFromPairToSymbolMapping_elem.
    + apply symbolsFromPairToSymbolMapping_length.
Qed.

End range_properties.

Lemma Fixture_range_visits_once (K : Type) `{Countable K} (V : Type) (m : gmap K V) :
  Fixture.range K V m ≡ₚ map_to_list m.
Proof. reflexivity. Qed.

(** [NewPriceProvider_sources] on an unknown name and on an exchange name. *)
Lemma NewPriceProvider_sources_witness :
  Fixture.NewPriceProvider "kraken" Fixture.mapping []
    = Panic "unknown price provider: kraken"
  ∧ ∃ symbols,
      Fixture.NewPriceProvider "binance" Fixture.mapping [] =
        Ok (PriceProvider.newPriceProvider Fixture.TickSource
              (Fixture.Build_TickSource symbols Fixture.BinancePriceUpdate [])
              "binance" Fixture.mapping [])
      ∧ symbols ≡ₚ (map_to_list Fixture.mapping).*2.
Proof.
  split.
  - apply (NewPriceProvider_sources Fixture.TickSource Fixture.FetchPricesFunc
             Fixture.Build_TickSource Fixture.BitfinexPriceUpdate
             Fixture.BinancePriceUpdate Fixture.Bitfinex Fixture.Binance
             (@Fixture.range) (@Fixture_range_visits_once)
             "kraken" Fixture.mapping []); discriminate.
  - destruct (NewPriceProvider_sources Fixture.TickSource Fixture.FetchPricesFunc
                Fixture.Build_TickSource Fixture.BitfinexPriceUpdate
                Fixture.BinancePriceUpdate Fixture.Bitfinex Fixture.Binance
                (@Fixture.range) (@Fixture_range_visits_once)
                "binance" Fixture.mapping []) as [_ Hok].
    destruct (Hok (or_intror eq_refl)) as (symbols & Heq & Hperm & _).
    exists symbols. split; [exact Heq | exact Hperm].
Defined.

(** ** The goroutine of a provider and [Close] *)
Section Close_properties.

Variable range : ∀ (K : Type) `{Countable K} (V : Type), gmap K V → list (K * V).

Import PriceProvider.

Local Abbreviation step := (PriceProvider.step (@range)).
Local Abbreviation exec := (PriceProvider.exec (@range)).

Implicit Types (s : state) (a : action).

Lemma inv_started {Source : Type} (p : PriceProvider Source) : inv (started p).
Proof. unfold inv, started; simpl. repeat split; done. Qed.

Lemma step_inv a s s' : inv s → step a s = Some s' → inv s'.
Proof.
  intros Hinv Hstep. unfold PriceProvider.step in Hstep.
  step_cases a s Hstep;
    unfold inv in *; simpl in *;
    destruct Hinv as (Hstop & Hpanic & Hret & Hsrc & Hdone & Hclose & [Hmx1 Hmx2]);
    try (specialize (Hmx2 eq_refl); discriminate Hmx2);
    simplify_eq;
    repeat match goal with
           | |- _ ∧ _ => split
           | |- _ ↔ _ => split
           end;
    intros; simplify_eq; try done; auto.
Qed.

Lemma exec_inv schedule s s' : inv s → exec schedule s = Some s' → inv s'.
Proof.
  revert s. induction schedule as [|a schedule IH]; intros s Hinv Hexec; simpl in Hexec.
  - by injection Hexec as <-.
  - destruct (step a s) as [s1|] eqn:Hstep; [|done].
    eauto using step_inv.
Qed.

Lemma exec_app schedule1 schedule2 s :
  exec (schedule1 ++ schedule2) s = s1 ← exec schedule1 s; exec schedule2 s1.
Proof.
  revert s. induction schedule1 as [|a schedule1 IH]; intros s; simpl; [done|].
  by destruct (step a s).
Qed.

(** Once [loop] is gone, a step changes neither the cache nor the
    counters, and leaves a returned [Close] returned: only callers of
    [GetPrice] still move. *)
Lemma step_after_exit a s s' :
  pc_loop s = Exited → step a s = Some s' →
  pc_loop s' = Exited
  ∧ cache s' = cache s
  ∧ cache_writes s' = cache_writes s
  ∧ source_closes s' = source_closes s
  ∧ (pc_close s = Returned → pc_close s' = Returned).
Proof.
  intros Hexited Hstep. unfold PriceProvider.step in Hstep.
  step_cases a s Hstep; simpl in *; simplify_eq; done.
Qed.

Lemma exec_after_exit schedule s s' :
  pc_loop s = Exited → exec schedule s = Some s' →
  pc_loop s' = Exited
  ∧ cache s' = cache s
  ∧ cache_writes s' = cache_writes s
  ∧ source_closes s' = source_closes s
  ∧ (pc_close s = Returned → pc_close s' = Returned).
Proof.
  revert s. induction schedule as [|a schedule IH]; intros s Hexited Hexec;
    simpl in Hexec.
  - by injection Hexec as <-.
  - destruct (step a s) as [s1|] eqn:Hstep; [|done].
    destruct (step_after_exit _ _ _ Hexited Hstep) as (H1 & H2 & H3 & H4 & H5).
    destruct (IH _ H1 Hexec) as (H1' & H2' & H3' & H4' & H5').
    repeat split; [done|congruence..|auto].
Qed.

(** C8. In every execution of a started provider, at the moment [Close]
    has returned: the stop channel was closed, [loop] has run to its end
    (its deferred calls included), and the source was closed once. From
    then on, whatever the schedule, the cache is never written again and the
    source is not closed a second time. *)
Theorem Close_waits_for_consumer {Source : Type} (p : PriceProvider Source)
    (schedule : list action) s :
  exec schedule (started p) = Some s →
  pc_close s = Returned →
  stopSignal_closed s = true
  ∧ pc_loop s = Exited
  ∧ done_closed s = true
  ∧ source_closes s = 1%nat
  ∧ ∀ (later : list action) s',
      exec later s = Some s' →
      pc_loop s' = Exited
      ∧ cache s' = cache s
      ∧ cache_writes s' = cache_writes s
      ∧ source_closes s' = 1%nat.
Proof.
  intros Hexec Hreturned.
  pose proof (exec_inv _ _ _ (inv_started p) Hexec) as Hinv.
  destruct Hinv as (Hstop & _ & _ & Hsrc & Hdone & Hclose & _).
  specialize (Hclose Hreturned).
  assert (Hexited : pc_loop s = Exited).
  { rewrite Hclose in Hdone. by destruct (pc_loop s). }
  rewrite Hexited in Hsrc. rewrite Hreturned in Hstop.
  repeat split; try done.
  all: destruct (exec_after_exit _ _ _ Hexited H) as (? & ? & ? & ? & ?);
    congruence.
Qed.

(** [Close] does not return while [loop] is still running. *)
Corollary Close_blocks_while_consumer_runs {Source : Type} (p : PriceProvider Source)
    (schedule : list action) s :
  exec schedule (started p) = Some s →
  pc_loop s ≠ Exited →
  step CloseReceiveDone s = None.
Proof.
  intros Hexec Hrunning.
  pose proof (exec_inv _ _ _ (inv_started p) Hexec) as Hinv.
  destruct Hinv as (_ & _ & _ & _ & Hdone & _ & _).
  unfold PriceProvider.step.
  destruct (pc_loop s) eqn:Hpl; try done;
    destruct (pc_close s); try done; by rewrite Hdone.
Qed.

(** X9. No execution is stuck: from every reachable state [Close] can still be
    brought to return. *)
Lemma Close_can_return {Source : Type} (p : PriceProvider Source)
    (schedule : list action) s :
  exec schedule (started p) = Some s →
  ∃ s', exec (wind_down s) s = Some s' ∧ pc_close s' = Returned.
Proof.
  intros Hexec.
  pose proof (exec_inv _ _ _ (inv_started p) Hexec) as Hinv. clear Hexec.
  destruct s as [pl pc st dn mx ca sc cw].
  unfold inv in Hinv; simpl in Hinv.
  destruct Hinv as (Hstop & Hpanic & Hret & Hsrc & Hdone & Hclose & [Hmx1 Hmx2]).
  destruct pl, pc; simpl in *; simplify_eq;
    try (specialize (Hret eq_refl); discriminate Hret);
    try (specialize (Hmx2 eq_refl); simplify_eq);
    try (destruct mx as [[]|]; [by specialize (Hmx1 eq_refl)|..]);
    unfold wind_down; simpl; eexists; (split; [reflexivity|done]).
Qed.

End Close_properties.

(** [Close_waits_for_consumer] on an execution of the provider of [Fixture]:
    a batch for tETHUSD is taken and written while a reader queries, then
    [Close] is called and the provider winds down. *)
Lemma Close_waits_for_consumer_witness :
  ∃ s,
    PriceProvider.exec (@Fixture.range)
      [PriceProvider.SelectUpdates
         {[ "tETHUSD" := {| RawPrice_Price := 7000.11%float;
                            RawPrice_UpdateTime := 1001 * Second |} ]};
       PriceProvider.ReaderLock; PriceProvider.ReaderUnlock;
       PriceProvider.LoopLock; PriceProvider.LoopWrite; PriceProvider.LoopUnlock;
       PriceProvider.CloseCall; PriceProvider.CloseStopSignal;
       PriceProvider.SelectStop;
       PriceProvider.LoopSourceClose; PriceProvider.LoopCloseDone;
       PriceProvider.CloseReceiveDone]
      (PriceProvider.started Fixture.provider) = Some s
    ∧ PriceProvider.pc_close s = PriceProvider.Returned
    ∧ PriceProvider.pc_loop s = PriceProvider.Exited
    ∧ PriceProvider.source_closes s = 1%nat.
Proof.
  match goal with
  | |- ∃ s, ?run = Some s ∧ _ =>
      assert (Hexec : ∃ s, run = Some s ∧ PriceProvider.pc_close s = PriceProvider.Returned)
        by (eexists; split; vm_compute; reflexivity)
  end.
  destruct Hexec as (s & Hexec & Hreturned).
  exists s. split; [exact Hexec|]. split; [exact Hreturned|].
  destruct (Close_waits_for_consumer (@Fixture.range) Fixture.provider _ s
              Hexec Hreturned) as (_ & Hexited & _ & Hsource & _).
  split; [exact Hexited | exact Hsource].
Defined.

(** The same execution, evaluated: the batch is in the cache next to the
    older tick, one map write was made and the source was closed once. *)
Example Close_execution :
  (s ← PriceProvider.exec (@Fixture.range)
         [PriceProvider.SelectUpdates
            {[ "tETHUSD" := {| RawPrice_Price := 7000.11%float;
                               RawPrice_UpdateTime := 1001 * Second |} ]};
          PriceProvider.LoopLock; PriceProvider.LoopWrite; PriceProvider.LoopUnlock;
          PriceProvider.CloseCall; PriceProvider.CloseStopSignal;
          PriceProvider.SelectStop;
          PriceProvider.LoopSourceClose; PriceProvider.LoopCloseDone;
          PriceProvider.CloseReceiveDone]
         (PriceProvider.started Fixture.provider);
   Some (RawPrice_Price <$> PriceProvider.cache s !! "tETHUSD",
         RawPrice_Price <$> PriceProvider.cache s !! "tBTCUSD",
         PriceProvider.cache_writes s, PriceProvider.source_closes s,
         PriceProvider.pc_close s))
  = Some (Some 7000.11%float, Some 100000.8%float, 1%nat, 1%nat, PriceProvider.Returned).
Proof. vm_compute. reflexivity. Qed.

(** [Close] cannot receive from [done] before [loop] has closed it. *)
Example Close_blocked_before_exit :
  PriceProvider.exec (@Fixture.range)
    [PriceProvider.CloseCall; PriceProvider.CloseStopSignal;
     PriceProvider.SelectStop; PriceProvider.LoopSourceClose;
     PriceProvider.CloseReceiveDone]
    (PriceProvider.started Fixture.provider) = None.
Proof. vm_compute. reflexivity. Qed.

(** ** The feeder *)
Section Feeder_properties.

Context {PP : Type} `{!PriceProviderI PP}.

Import Feeder.

Implicit Types (f : Feeder PP) (vp : VotingPeriod) (pair : AssetPair).

Lemma gatherPrices_from f (pairs : list AssetPair) (acc : list Price * list call) :
  foldl (fun acc pair =>
           let price := GetPrice_of (priceProvider f) pair in
           (acc.1 ++ [abstain price], acc.2 ++ [GetPriceCall pair]))
        acc pairs
  = (acc.1 ++ (vote f <$> pairs), acc.2 ++ (GetPriceCall <$> pairs)).
Proof.
  revert acc. induction pairs as [|pair pairs IH]; intros [prices calls]; simpl.
  - by rewrite !app_nil_r.
  - rewrite IH. simpl. by rewrite <- !app_assoc.
Qed.

Lemma gatherPrices_votes f :
  gatherPrices f = (vote f <$> Pairs (params f), GetPriceCall <$> Pairs (params f)).
Proof. unfold gatherPrices. by rewrite gatherPrices_from. Qed.

Lemma handleVotingPeriod_calls f vp :
  handleVotingPeriod f vp =
    (GetPriceCall <$> Pairs (params f))
    ++ [SendPricesCall vp (vote f <$> Pairs (params f))].
Proof. unfold handleVotingPeriod. by rewrite gatherPrices_votes. Qed.

(** C3. On a voting period the feeder calls [GetPrice] once for each pair
    of the parameters it holds, in their order, and then [SendPrices] with
    the period that triggered it and the list of votes: one vote per pair,
    in the order of the pairs, made from the answer for that pair. *)
Theorem handleVotingPeriod_votes f vp :
  handleVotingPeriod f vp =
    (GetPriceCall <$> Pairs (params f))
    ++ [SendPricesCall vp (vote f <$> Pairs (params f))]
  ∧ length (vote f <$> Pairs (params f)) = length (Pairs (params f))
  ∧ react f (VotingPeriodStarted vp) = (f, handleVotingPeriod f vp).
Proof.
  split; [|split].
  - apply handleVotingPeriod_calls.
  - apply length_fmap.
  - reflexivity.
Qed.

(** The parameters used are the ones held when the period starts: an
    update that came before replaces the pairs. *)
Lemma loop_uses_current_params f (p : Params) vp :
  (loop f [ParamsUpdate p; VotingPeriodStarted vp]).2 =
    (GetPriceCall <$> Pairs p)
    ++ [SendPricesCall vp (vote (handleParamsUpdate f p) <$> Pairs p)].
Proof.
  simpl. rewrite handleVotingPeriod_calls. simpl. by rewrite app_nil_r.
Qed.

(** C4. In the list handed to [SendPrices], the entry of a pair whose
    answer is not valid carries the price 0 and is otherwise the answer;
    the entry of a pair whose answer is valid is the answer itself. *)
Theorem SendPrices_abstains f vp (votes : list Price) (i : nat) pair :
  SendPricesCall vp votes ∈ handleVotingPeriod f vp →
  Pairs (params f) !! i = Some pair →
  votes !! i =
    Some (if Price_Valid (GetPrice_of (priceProvider f) pair)
          then GetPrice_of (priceProvider f) pair
          else {| Price_Pair := Price_Pair (GetPrice_of (priceProvider f) pair);
                  Price_Price := 0%float;
                  Price_SourceName :=
                    Price_SourceName (GetPrice_of (priceProvider f) pair);
                  Price_Valid := false |}).
Proof.
  intros Hsent Hpair.
  rewrite handleVotingPeriod_calls in Hsent.
  apply elem_of_app in Hsent as [Hsent|Hsent].
  - apply list_elem_of_fmap in Hsent as (? & [=] & _).
  - apply list_elem_of_singleton in Hsent. injection Hsent as ->.
    rewrite list_lookup_fmap, Hpair. simpl. f_equal.
    unfold vote, abstain.
    by destruct (Price_Valid (GetPrice_of (priceProvider f) pair)).
Qed.



End Feeder_properties.

(** TestVotingPeriod: the feeder receives the pairs BTC_NUSD and ETH_NUSD
    on the parameter channel, the mock answers with a valid and an invalid
    price, and a voting period starts at height 100. *)
Example TestVotingPeriod_calls :
  (Feeder.loop (Feeder.NewFeeder Fixture.mockPriceProvider)
     [Feeder.ParamsUpdate
        {| Pairs := [Pair_BTC_NUSD; Pair_ETH_NUSD]; VotePeriodBlocks := 0 |};
      Feeder.VotingPeriodStarted {| Height := 100 |}]).2
  = [Feeder.GetPriceCall Pair_BTC_NUSD;
     Feeder.GetPriceCall Pair_ETH_NUSD;
     Feeder.SendPricesCall {| Height := 100 |}
       [Fixture.validPrice; Fixture.abstainPrice]].
Proof. vm_compute. reflexivity. Qed.

(** A voting period at height 99 before the parameters arrive, then the
    scenario above: the first vote list is empty, the second has both
    pairs. *)
Example voting_period_then_params :
  (Feeder.loop (Feeder.NewFeeder Fixture.mockPriceProvider)
     [Feeder.VotingPeriodStarted {| Height := 99 |};
      Feeder.ParamsUpdate
        {| Pairs := [Pair_BTC_NUSD; Pair_ETH_NUSD]; VotePeriodBlocks := 0 |};
      Feeder.VotingPeriodStarted {| Height := 100 |}]).2
  = [Feeder.SendPricesCall {| Height := 99 |} [];
     Feeder.GetPriceCall Pair_BTC_NUSD;
     Feeder.GetPriceCall Pair_ETH_NUSD;
     Feeder.SendPricesCall {| Height := 100 |}
       [Fixture.validPrice; Fixture.abstainPrice]].
Proof. vm_compute. reflexivity. Qed.

(** TestParamsUpdate: an update replaces the parameters held. *)
Example TestParamsUpdate_params :
  Feeder.params
    (Feeder.loop
       (Feeder.handleParamsUpdate (Feeder.NewFeeder Fixture.mockPriceProvider)
          {| Pairs := [Pair_BTC_NUSD; Pair_ETH_NUSD]; VotePeriodBlocks := 0 |})
       [Feeder.ParamsUpdate {| Pairs := [Pair_NIBI_NUSD]; VotePeriodBlocks := 50 |}]).1
  = {| Pairs := [Pair_NIBI_NUSD]; VotePeriodBlocks := 50 |}.
Proof. reflexivity. Qed.

(** [SendPrices_abstains] on the scenario of TestVotingPeriod: the second
    vote, for ETH_NUSD, is the invalid answer with its price 7000.11
    replaced by 0. *)
Lemma SendPrices_abstains_witness :
  Feeder.SendPricesCall {| Height := 100 |} [Fixture.validPrice; Fixture.abstainPrice]
    ∈ Feeder.handleVotingPeriod
        {| Feeder.priceProvider := Fixture.mockPriceProvider;
           Feeder.params :=
             {| Pairs := [Pair_BTC_NUSD; Pair_ETH_NUSD]; VotePeriodBlocks := 0 |} |}
        {| Height := 100 |}
  ∧ [Fixture.validPrice; Fixture.abstainPrice] !! 1%nat = Some Fixture.abstainPrice
  ∧ [Fixture.validPrice; Fixture.abstainPrice] !! 0%nat = Some Fixture.validPrice.
Proof.
  match goal with
  | |- ?sent ∧ _ => assert (Hsent : sent)
  end.
  { vm_compute. do 2 apply list_elem_of_further. apply list_elem_of_here. }
  split; [exact Hsent|]. split.
  - exact (SendPrices_abstains _ _ _ 1%nat Pair_ETH_NUSD Hsent eq_refl).
  - exact (SendPrices_abstains _ _ _ 0%nat Pair_BTC_NUSD Hsent eq_refl).
Defined.

(** ** The keyring *)

Lemma Address_Equals_eq (aa aa2 : Keyring.Address) :
  Keyring.Address_Equals aa aa2 = true ↔ aa = aa2.
Proof.
  unfold Keyring.Address_Equals, Keyring.Address_Empty, bytes_Equal.
  destruct (bool_decide (aa = [])) eqn:Ha; destruct (bool_decide (aa2 = [])) eqn:Ha2;
    simpl; rewrite ?bool_decide_eq_true; try done.
  apply bool_decide_eq_true in Ha, Ha2. by subst.
Qed.

Lemma Address_Equals_refl (aa : Keyring.Address) : Keyring.Address_Equals aa aa = true.
Proof. by apply Address_Equals_eq. Qed.

Lemma Address_Equals_ne (aa aa2 : Keyring.Address) :
  aa ≠ aa2 → Keyring.Address_Equals aa aa2 = false.
Proof.
  intros Hne. apply not_true_is_false. by rewrite Address_Equals_eq.
Qed.

Section Keyring_properties.

Variables PubKey PrivKey : Type.
Variable PrivKey_Sign : PrivKey → list byte → list byte + error.
Variables Language SignatureAlgo SigningAlgoList PubKeyType BIP44Params : Type.

Import Keyring.

Local Abbreviation privKeyKeyring := (Keyring.privKeyKeyring PubKey PrivKey).
Local Abbreviation SignByAddress := (Keyring.SignByAddress PrivKey_Sign).
Local Abbreviation Sign := (Keyring.Sign PrivKey_Sign).

Implicit Types (p : privKeyKeyring) (address : Address) (msg : list byte).

Lemma KeyByAddress_held p :
  KeyByAddress p (addr p) = Ok {| info_pubKey := pubKey p; info_addr := addr p |}.
Proof. unfold Keyring.KeyByAddress. by rewrite Address_Equals_refl. Qed.

Lemma SignByAddress_held p msg :
  SignByAddress p (addr p) msg =
    match PrivKey_Sign (privKey p) msg with
    | inl signed => Ok (signed, pubKey p)
    | inr err => Err err
    end.
Proof. unfold Keyring.SignByAddress. by rewrite Address_Equals_refl. Qed.

(** C6. With the held address, [KeyByAddress] returns the held public key
    and address, and [SignByAddress] returns what the held private key
    signs for the message, with the held public key (an error of the key's
    own [Sign] is handed on). With any other address both return the error
    "key not found". Neither panics. *)
Theorem by_address_held_or_not_found p address msg :
  (address = addr p →
   KeyByAddress p address = Ok {| info_pubKey := pubKey p; info_addr := addr p |}
   ∧ (∀ signed, PrivKey_Sign (privKey p) msg = inl signed →
                SignByAddress p address msg = Ok (signed, pubKey p))
   ∧ (∀ err, PrivKey_Sign (privKey p) msg = inr err →
             SignByAddress p address msg = Err err))
  ∧ (address ≠ addr p →
     KeyByAddress p address = Err "key not found"
     ∧ SignByAddress p address msg = Err "key not found")
  ∧ returned (KeyByAddress p address) = true
  ∧ returned (SignByAddress p address msg) = true.
Proof.
  split; [|split; [|split]].
  - intros ->. split; [apply KeyByAddress_held|].
    split; intros x Hsign; by rewrite SignByAddress_held, Hsign.
  - intros Hother. unfold Keyring.KeyByAddress, Keyring.SignByAddress.
    by rewrite !Address_Equals_ne.
  - unfold Keyring.KeyByAddress. by destruct (negb _).
  - unfold Keyring.SignByAddress. destruct (negb _); [done|].
    by destruct (PrivKey_Sign _ _).
Qed.

(** C9. [Key] and [Sign] do not look at the name they are given: [Key]
    always returns the held public key and address, [Sign] always what the
    held private key signs for the message, as [SignByAddress] does for the
    held address. *)
Theorem by_name_ignores_uid p (uid : string) msg :
  Key p uid = Ok {| info_pubKey := pubKey p; info_addr := addr p |}
  ∧ Sign p uid msg =
      match PrivKey_Sign (privKey p) msg with
      | inl signed => Ok (signed, pubKey p)
      | inr err => Err err
      end
  ∧ Sign p uid msg = SignByAddress p (addr p) msg
  ∧ (∀ uid' : string, Key p uid' = Key p uid ∧ Sign p uid' msg = Sign p uid msg).
Proof.
  split; [apply KeyByAddress_held|].
  split; [apply SignByAddress_held|].
  split; [reflexivity|]. intros uid'. split; reflexivity.
Qed.

(** C7, as the code has it. Every method of the keyring besides [Key],
    [KeyByAddress], [Sign] and [SignByAddress] panics with the message
    "must never be called", whatever its arguments; so do [GetPath] and
    [GetAlgo] of the key info. None returns an error to its caller. *)
Theorem other_methods_panic p (i : info PubKey) :
  List p = Panic "must never be called"
  ∧ SupportedAlgorithms SigningAlgoList p = Panic "must never be called"
  ∧ GetPath BIP44Params i = Panic "must never be called"
  ∧ GetAlgo PubKeyType i = Panic "must never be called"
  ∧ (∀ uid, Delete p uid = Panic "must never be called")
  ∧ (∀ address, DeleteByAddress p address = Panic "must never be called")
  ∧ (∀ uid (language : Language) hdPath bip39Passphrase (algo : SignatureAlgo),
       NewMnemonic p uid language hdPath bip39Passphrase algo
       = Panic "must never be called")
  ∧ (∀ uid mnemonic bip39Passphrase hdPath (algo : SignatureAlgo),
       NewAccount p uid mnemonic bip39Passphrase hdPath algo
       = Panic "must never be called")
  ∧ (∀ uid (algo : SignatureAlgo) hrp coinType account index,
       SaveLedgerKey p uid algo hrp coinType account index
       = Panic "must never be called")
  ∧ (∀ uid pubkey (algo : PubKeyType),
       SavePubKey p uid pubkey algo = Panic "must never be called")
  ∧ (∀ uid pubkey, SaveMultisig p uid pubkey = Panic "must never be called")
  ∧ (∀ uid armor passphrase,
       ImportPrivKey p uid armor passphrase = Panic "must never be called")
  ∧ (∀ uid armor, ImportPubKey p uid armor = Panic "must never be called")
  ∧ (∀ uid, ExportPubKeyArmor p uid = Panic "must never be called")
  ∧ (∀ address, ExportPubKeyArmorByAddress p address = Panic "must never be called")
  ∧ (∀ uid encryptPassphrase,
       ExportPrivKeyArmor p uid encryptPassphrase = Panic "must never be called")
  ∧ (∀ address encryptPassphrase,
       ExportPrivKeyArmorByAddress p address encryptPassphrase
       = Panic "must never be called").
Proof. repeat split. Qed.

End Keyring_properties.

(** [by_address_held_or_not_found] on the keyring of [Fixture]: its own
    address [02 01] signs and is looked up, the address [00] is not found. *)
Lemma by_address_held_or_not_found_witness :
  Keyring.SignByAddress Fixture.PrivKey_Sign Fixture.keyring [x02; x01] [x2a]
    = Ok ([x01; x02; x2a], [x02; x01])
  ∧ Keyring.KeyByAddress Fixture.keyring [x02; x01]
    = Ok {| Keyring.info_pubKey := [x02; x01]; Keyring.info_addr := [x02; x01] |}
  ∧ Keyring.SignByAddress Fixture.PrivKey_Sign Fixture.keyring [x00] [x2a]
    = Err "key not found"
  ∧ Keyring.KeyByAddress Fixture.keyring [x00] = Err "key not found".
Proof.
  destruct (by_address_held_or_not_found (list byte) (list byte) Fixture.PrivKey_Sign
              Fixture.keyring [x02; x01] [x2a]) as (Hheld & _).
  destruct (Hheld eq_refl) as (Hkey & Hsign & _).
  destruct (by_address_held_or_not_found (list byte) (list byte) Fixture.PrivKey_Sign
              Fixture.keyring [x00] [x2a]) as (_ & Hother & _).
  destruct (Hother ltac:(discriminate)) as [Hkey' Hsign'].
  split; [exact (Hsign _ eq_refl)|].
  split; [exact Hkey|]. split; [exact Hsign' | exact Hkey'].
Defined.

(** [Key] and [Sign] under two different names. *)
Example Key_Sign_any_name :
  Keyring.Key Fixture.keyring "alice" = Keyring.Key Fixture.keyring ""
  ∧ Keyring.Sign Fixture.PrivKey_Sign Fixture.keyring "nobody" [x2a]
    = Ok ([x01; x02; x2a], [x02; x01]).
Proof. vm_compute. done. Qed.

(** Against C7 as stated: [List] on the keyring of [Fixture] does not
    return at all, it panics; in particular it returns no error. *)
Lemma List_panics :
  Keyring.List Fixture.keyring = Panic "must never be called"
  ∧ returned (Keyring.List Fixture.keyring) = false
  ∧ ¬ ∃ err : error, Keyring.List Fixture.keyring = Err err.
Proof.
  split; [reflexivity|]. split; [reflexivity|].
  intros [err Herr]. discriminate Herr.
Qed.

(* ===================================================================== *)
(** * Part III: further properties of the code                            *)
(* ===================================================================== *)

(** ** More on [GetPrice] *)

Lemma time_Sub_mono (t t' u : Time) : t ≤ t' → time_Sub t u ≤ time_Sub t' u.
Proof.
  intros Hle. unfold time_Sub, minDuration, maxDuration.
  destruct (Z.ltb_spec (t - u) (- 2 ^ 63)); destruct (Z.ltb_spec (t' - u) (- 2 ^ 63));
    destruct (Z.ltb_spec (2 ^ 63 - 1) (t - u));
    destruct (Z.ltb_spec (2 ^ 63 - 1) (t' - u)); lia.
Qed.

Section GetPrice_answers.

Variable PriceTimeout : Duration.
Variable Source : Type.

Local Abbreviation PriceProvider := (PriceProvider.PriceProvider Source).
Local Abbreviation GetPrice := (PriceProvider.GetPrice PriceTimeout Source).

Implicit Types (p : PriceProvider) (now : Time) (pair : AssetPair).

(** X1. A valid answer is never made up: the pair has a symbol, the cache has
    a tick for it, the answer carries the price of that tick, and the tick
    is younger than the timeout. Neither the sentinel -1 nor the price 0 of
    a missing entry is ever flagged valid. *)
Theorem GetPrice_valid_is_cached p now pair :
  Price_Valid (GetPrice p now pair).1 = true →
  ∃ symbol raw,
    PriceProvider.pairToSymbolMapping p !! pair = Some symbol
    ∧ PriceProvider.lastPrices p !! symbol = Some raw
    ∧ (GetPrice p now pair).1 =
        {| Price_Pair := pair; Price_Price := RawPrice_Price raw;
           Price_SourceName := PriceProvider.sourceName p; Price_Valid := true |}
    ∧ time_Since now (RawPrice_UpdateTime raw) < PriceTimeout.
Proof.
  unfold PriceProvider.GetPrice, map_read.
  destruct (PriceProvider.pairToSymbolMapping p !! pair) as [symbol|]; [|done].
  destruct (PriceProvider.lastPrices p !! symbol) as [raw|] eqn:Hcache; [|done].
  cbn [fst Price_Valid]. unfold PriceProvider.isValid.
  rewrite andb_true_l. intros Hvalid. exists symbol, raw.
  split; [done|]. split; [done|]. split.
  - by rewrite Hvalid.
  - by apply bool_decide_eq_true in Hvalid.
Qed.

(** X2. Validity only expires: while the cache keeps its content, an answer
    that is valid at some instant was the same valid answer at every
    earlier instant. So a price that went stale does not come back without
    a new tick. *)
Theorem GetPrice_validity_expires p now now' pair :
  now ≤ now' →
  Price_Valid (GetPrice p now' pair).1 = true →
  (GetPrice p now pair).1 = (GetPrice p now' pair).1.
Proof.
  intros Hle. unfold PriceProvider.GetPrice, map_read.
  destruct (PriceProvider.pairToSymbolMapping p !! pair) as [symbol|]; [|done].
  destruct (PriceProvider.lastPrices p !! symbol) as [raw|]; [|done].
  cbn [fst Price_Valid]. unfold PriceProvider.isValid.
  rewrite !andb_true_l. intros Hvalid. rewrite Hvalid.
  apply bool_decide_eq_true in Hvalid. f_equal.
  apply bool_decide_eq_true.
  pose proof (time_Sub_mono now now' (RawPrice_UpdateTime raw) Hle).
  unfold time_Since in *. lia.
Qed.

End GetPrice_answers.

(** [GetPrice_valid_is_cached] on the fresh tick of [Fixture]. *)
Lemma GetPrice_valid_is_cached_witness :
  Price_Valid (Fixture.GetPrice Fixture.provider (1010 * Second) Pair_BTC_NUSD).1 = true
  ∧ ∃ symbol raw,
      PriceProvider.pairToSymbolMapping Fixture.provider !! Pair_BTC_NUSD = Some symbol
      ∧ PriceProvider.lastPrices Fixture.provider !! symbol = Some raw
      ∧ Price_Price (Fixture.GetPrice Fixture.provider (1010 * Second) Pair_BTC_NUSD).1
        = RawPrice_Price raw.
Proof.
  assert (Hvalid :
    Price_Valid (Fixture.GetPrice Fixture.provider (1010 * Second) Pair_BTC_NUSD).1 = true)
    by (vm_compute; reflexivity).
  split; [exact Hvalid|].
  destruct (GetPrice_valid_is_cached Fixture.PriceTimeout Fixture.TickSource
              Fixture.provider (1010 * Second) Pair_BTC_NUSD Hvalid)
    as (symbol & raw & Hmapped & Hcache & Hanswer & _).
  exists symbol, raw. split; [exact Hmapped|]. split; [exact Hcache|].
  unfold Fixture.GetPrice. by rewrite Hanswer.
Defined.

(** [GetPrice_validity_expires]: the tick of [Fixture] is valid 14 s after
    its update, hence answered alike 5 s after it. *)
Lemma GetPrice_validity_expires_witness :
  1005 * Second ≤ 1014 * Second
  ∧ Price_Valid (Fixture.GetPrice Fixture.provider (1014 * Second) Pair_BTC_NUSD).1 = true
  ∧ (Fixture.GetPrice Fixture.provider (1005 * Second) Pair_BTC_NUSD).1
    = (Fixture.GetPrice Fixture.provider (1014 * Second) Pair_BTC_NUSD).1.
Proof.
  assert (Hle : 1005 * Second ≤ 1014 * Second) by (vm_compute; discriminate).
  assert (Hvalid :
    Price_Valid (Fixture.GetPrice Fixture.provider (1014 * Second) Pair_BTC_NUSD).1 = true)
    by (vm_compute; reflexivity).
  split; [exact Hle|]. split; [exact Hvalid|].
  exact (GetPrice_validity_expires Fixture.PriceTimeout Fixture.TickSource
           Fixture.provider _ _ Pair_BTC_NUSD Hle Hvalid).
Defined.

(** ** A provider before its first tick *)
Section NewPriceProvider_answers.

Variable PriceTimeout : Duration.
Variable Source : Type.
Variable FetchPricesFunc : Type.
Variable NewTickSource : Symbols → FetchPricesFunc → Logger → Source.
Variables BitfinexPriceUpdate BinancePriceUpdate : FetchPricesFunc.
Variables Bitfinex Binance : string.
Variable range : ∀ (K : Type) `{Countable K} (V : Type), gmap K V → list (K * V).

Local Abbreviation NewPriceProvider :=
  (PriceProvider.NewPriceProvider Source FetchPricesFunc NewTickSource
     BitfinexPriceUpdate BinancePriceUpdate Bitfinex Binance (@range)).
Local Abbreviation GetPrice := (PriceProvider.GetPrice PriceTimeout Source).

(** X3. A provider that [NewPriceProvider] returns carries the name and the
    mapping it was given and an empty cache: until a batch is written,
    every answer is invalid, with the price 0 for a pair of the mapping and
    -1 for any other pair. *)
Theorem NewPriceProvider_starts_unseen (name : string) (m : gmap AssetPair Symbol)
    (lg : Logger) (pp : PriceProvider.PriceProvider Source) :
  NewPriceProvider name m lg = Ok pp →
  PriceProvider.sourceName pp = name
  ∧ PriceProvider.pairToSymbolMapping pp = m
  ∧ PriceProvider.lastPrices pp = ∅
  ∧ ∀ (now : Time) (pair : AssetPair),
      (GetPrice pp now pair).1 =
        {| Price_Pair := pair;
           Price_Price := match m !! pair with
                          | Some _ => 0%float
                          | None => (-1)%float
                          end;
           Price_SourceName := name;
           Price_Valid := false |}.
Proof.
  unfold PriceProvider.NewPriceProvider. intros Hnew.
  assert (∃ src, pp = PriceProvider.newPriceProvider Source src name m lg) as [src ->].
  { destruct (bool_decide (name = Bitfinex)); [|destruct (bool_decide (name = Binance))];
      simpl in Hnew; [injection Hnew as <-; eauto..|discriminate]. }
  split; [done|]. split; [done|]. split; [done|].
  intros now pair. unfold PriceProvider.GetPrice, map_read. simpl.
  destruct (m !! pair) as [symbol|]; [|done].
  by rewrite lookup_empty.
Qed.

End NewPriceProvider_answers.

(** [NewPriceProvider_starts_unseen] on the provider made for "binance". *)
Lemma NewPriceProvider_starts_unseen_witness :
  ∃ pp,
    Fixture.NewPriceProvider "binance" Fixture.mapping [] = Ok pp
    ∧ (Fixture.GetPrice pp (1010 * Second) Pair_BTC_NUSD).1 =
        {| Price_Pair := Pair_BTC_NUSD; Price_Price := 0%float;
           Price_SourceName := "binance"; Price_Valid := false |}
    ∧ (Fixture.GetPrice pp (1010 * Second) Pair_NIBI_NUSD).1 =
        {| Price_Pair := Pair_NIBI_NUSD; Price_Price := (-1)%float;
           Price_SourceName := "binance"; Price_Valid := false |}.
Proof.
  destruct (Fixture.NewPriceProvider "binance" Fixture.mapping []) as [pp| |] eqn:Hnew;
    [|vm_compute in Hnew; discriminate..].
  exists pp. split; [reflexivity|].
  destruct (NewPriceProvider_starts_unseen Fixture.PriceTimeout Fixture.TickSource
              Fixture.FetchPricesFunc Fixture.Build_TickSource
              Fixture.BitfinexPriceUpdate Fixture.BinancePriceUpdate
              Fixture.Bitfinex Fixture.Binance (@Fixture.range)
              "binance" Fixture.mapping [] pp Hnew) as (_ & _ & _ & Hanswers).
  split.
  - etransitivity; [exact (Hanswers (1010 * Second) Pair_BTC_NUSD)|].
    vm_compute. reflexivity.
  - etransitivity; [exact (Hanswers (1010 * Second) Pair_NIBI_NUSD)|].
    vm_compute. reflexivity.
Defined.

(** ** More on the goroutine, the cache and the mutex *)

(** X4. Whatever the visiting order of [range], a batch leaves the same cache:
    the batch over the old cache. *)
Theorem applyUpdates_any_order
    (range1 range2 : ∀ (K : Type) `{Countable K} (V : Type), gmap K V → list (K * V))
    (updates cache : gmap Symbol RawPrice) :
  (∀ (K : Type) `{Countable K} (V : Type) (m : gmap K V),
     range1 K V m ≡ₚ map_to_list m) →
  (∀ (K : Type) `{Countable K} (V : Type) (m : gmap K V),
     range2 K V m ≡ₚ map_to_list m) →
  PriceProvider.applyUpdates (@range1) updates cache
    = PriceProvider.applyUpdates (@range2) updates cache
  ∧ PriceProvider.applyUpdates (@range1) updates cache = updates ∪ cache.
Proof.
  intros Hrange1 Hrange2.
  rewrite (applyUpdates_union (@range1) Hrange1).
  by rewrite (applyUpdates_union (@range2) Hrange2).
Qed.

Lemma reverse_range_visits_once (K : Type) `{Countable K} (V : Type) (m : gmap K V) :
  reverse (Fixture.range K V m) ≡ₚ map_to_list m.
Proof. unfold Fixture.range. apply reverse_Permutation. Qed.

(** [applyUpdates_any_order]: a batch of two ticks, visited in one order and
    in the reverse order. *)
Lemma applyUpdates_any_order_witness :
  PriceProvider.applyUpdates (@Fixture.range)
    {[ "tETHUSD" := {| RawPrice_Price := 7000.11%float;
                       RawPrice_UpdateTime := 1001 * Second |};
       "tBTCUSD" := {| RawPrice_Price := 100001.5%float;
                       RawPrice_UpdateTime := 1001 * Second |} ]}
    (PriceProvider.lastPrices Fixture.provider)
  = PriceProvider.applyUpdates (fun K _ _ V m => reverse (Fixture.range K V m))
      {[ "tETHUSD" := {| RawPrice_Price := 7000.11%float;
                         RawPrice_UpdateTime := 1001 * Second |};
         "tBTCUSD" := {| RawPrice_Price := 100001.5%float;
                         RawPrice_UpdateTime := 1001 * Second |} ]}
      (PriceProvider.lastPrices Fixture.provider).
Proof.
  exact (proj1 (applyUpdates_any_order (@Fixture.range)
                  (fun K _ _ V m => reverse (Fixture.range K V m)) _ _
                  (@Fixture_range_visits_once) (@reverse_range_visits_once))).
Defined.

(** [GetPrice_after_write] on the provider of [Fixture]: [loop] holds a
    batch with a new tick for tBTCUSD; after the write the answer for
    BTC_NUSD carries the new price. *)
Lemma GetPrice_after_write_witness :
  ∃ s s',
    PriceProvider.exec (@Fixture.range)
      [PriceProvider.SelectUpdates
         {[ "tBTCUSD" := {| RawPrice_Price := 100001.5%float;
                            RawPrice_UpdateTime := 1001 * Second |} ]};
       PriceProvider.LoopLock]
      (PriceProvider.started Fixture.provider) = Some s
    ∧ PriceProvider.step (@Fixture.range) PriceProvider.LoopWrite s = Some s'
    ∧ Price_Price
        (Fixture.GetPrice (PriceProvider.in_state Fixture.provider s)
           (1002 * Second) Pair_BTC_NUSD).1 = 100000.8%float
    ∧ Price_Price
        (Fixture.GetPrice (PriceProvider.in_state Fixture.provider s')
           (1002 * Second) Pair_BTC_NUSD).1 = 100001.5%float.
Proof.
  eexists. eexists.
  split; [vm_compute; reflexivity|].
  split; [vm_compute; reflexivity|].
  split; [vm_compute; reflexivity|].
  match goal with
  | |- Price_Price (Fixture.GetPrice (PriceProvider.in_state _ ?s') _ _).1 = _ =>
      etransitivity;
      [ exact (GetPrice_after_write Fixture.PriceTimeout Fixture.TickSource
                 (@Fixture.range) (@Fixture_range_visits_once) Fixture.provider
                 (PriceProvider.set_mutex (Some PriceProvider.Consumer)
                    (PriceProvider.set_loop
                       (PriceProvider.AtWrite
                          {[ "tBTCUSD" := {| RawPrice_Price := 100001.5%float;
                                             RawPrice_UpdateTime := 1001 * Second |} ]})
                       (PriceProvider.started Fixture.provider)))
                 s'
                 {[ "tBTCUSD" := {| RawPrice_Price := 100001.5%float;
                                    RawPrice_UpdateTime := 1001 * Second |} ]}
                 (1002 * Second) Pair_BTC_NUSD "tBTCUSD"
                 eq_refl eq_refl eq_refl)
      | vm_compute; reflexivity ]
  end.
Defined.

Section Cache_properties.

Variable range : ∀ (K : Type) `{Countable K} (V : Type), gmap K V → list (K * V).
Hypothesis range_visits_once :
  ∀ (K : Type) `{Countable K} (V : Type) (m : gmap K V),
    range K V m ≡ₚ map_to_list m.

Import PriceProvider.

Local Abbreviation step := (PriceProvider.step (@range)).
Local Abbreviation exec := (PriceProvider.exec (@range)).

Implicit Types (s : state) (a : action).

Lemma step_cache_keys a s s' (symbol : Symbol) :
  step a s = Some s' →
  is_Some (cache s !! symbol) → is_Some (cache s' !! symbol).
Proof.
  intros Hstep Hseen. unfold PriceProvider.step in Hstep.
  step_cases a s Hstep; simpl in *; try done;
    rewrite (applyUpdates_lookup (@range) range_visits_once);
    by destruct (updates !! symbol).
Qed.

(** X6. No step removes an entry of the cache: a symbol that has a tick keeps
    having one, through any execution. A pair that was seen once is never
    answered as unseen again. *)
Theorem cache_keys_persist (schedule : list action) s s' (symbol : Symbol) :
  exec schedule s = Some s' →
  is_Some (cache s !! symbol) → is_Some (cache s' !! symbol).
Proof.
  revert s. induction schedule as [|a schedule IH]; intros s Hexec Hseen;
    simpl in Hexec.
  - by injection Hexec as <-.
  - destruct (step a s) as [s1|] eqn:Hstep; [|done].
    eauto using step_cache_keys.
Qed.

End Cache_properties.

(** [cache_keys_persist]: after a batch for tETHUSD and the wind-down of the
    provider of [Fixture], the older tick of tBTCUSD is still there. *)
Lemma cache_keys_persist_witness :
  ∃ s',
    PriceProvider.exec (@Fixture.range)
      [PriceProvider.SelectUpdates
         {[ "tETHUSD" := {| RawPrice_Price := 7000.11%float;
                            RawPrice_UpdateTime := 1001 * Second |} ]};
       PriceProvider.LoopLock; PriceProvider.LoopWrite; PriceProvider.LoopUnlock;
       PriceProvider.CloseCall; PriceProvider.CloseStopSignal;
       PriceProvider.SelectStop]
      (PriceProvider.started Fixture.provider) = Some s'
    ∧ is_Some (PriceProvider.cache (PriceProvider.started Fixture.provider) !! "tBTCUSD")
    ∧ is_Some (PriceProvider.cache s' !! "tBTCUSD").
Proof.
  eexists. split; [vm_compute; reflexivity|].
  assert (Hseen : is_Some (PriceProvider.cache (PriceProvider.started Fixture.provider)
                             !! "tBTCUSD")) by (vm_compute; eauto).
  split; [exact Hseen|].
  apply (cache_keys_persist (@Fixture.range) (@Fixture_range_visits_once)
           [PriceProvider.SelectUpdates
              {[ "tETHUSD" := {| RawPrice_Price := 7000.11%float;
                                 RawPrice_UpdateTime := 1001 * Second |} ]};
            PriceProvider.LoopLock; PriceProvider.LoopWrite; PriceProvider.LoopUnlock;
            PriceProvider.CloseCall; PriceProvider.CloseStopSignal;
            PriceProvider.SelectStop]
           (PriceProvider.started Fixture.provider) _ "tBTCUSD");
    [vm_compute; reflexivity | exact Hseen].
Defined.

Section Mutex_properties.

Variable range : ∀ (K : Type) `{Countable K} (V : Type), gmap K V → list (K * V).

Import PriceProvider.

Local Abbreviation step := (PriceProvider.step (@range)).
Local Abbreviation exec := (PriceProvider.exec (@range)).

Implicit Types (s : state) (a : action).

Lemma step_under_reader a s s' :
  inv s → mutex s = Some Reader → a ≠ ReaderUnlock →
  step a s = Some s' →
  cache s' = cache s ∧ mutex s' = Some Reader.
Proof.
  intros Hinv Hreader Hkeep Hstep. unfold PriceProvider.step in Hstep.
  step_cases a s Hstep; simpl in *; simplify_eq; try done;
    destruct Hinv as (_ & _ & _ & _ & _ & _ & [_ Hlocked]);
    simpl in Hlocked; by specialize (Hlocked eq_refl).
Qed.

(** X7. While a caller of [GetPrice] holds the mutex, the cache does not
    change: in any execution, from the reader's [Lock] on and as long as
    its [Unlock] has not run, the cache is the one the reader found, and
    the mutex stays the reader's. *)
Theorem reader_sees_stable_cache {Source : Type} (p : PriceProvider Source)
    (schedule later : list action) s s' :
  exec schedule (started p) = Some s →
  mutex s = Some Reader →
  ReaderUnlock ∉ later →
  exec later s = Some s' →
  cache s' = cache s ∧ mutex s' = Some Reader.
Proof.
  intros Hexec. pose proof (exec_inv (@range) _ _ _ (inv_started p) Hexec) as Hinv.
  clear Hexec. revert s Hinv.
  induction later as [|a later IH]; intros s Hinv Hreader Hkeep Hlater;
    simpl in Hlater.
  - by injection Hlater as <-.
  - destruct (step a s) as [s1|] eqn:Hstep; [|done].
    apply not_elem_of_cons in Hkeep as [Hne Hkeep].
    destruct (step_under_reader a s s1 Hinv Hreader) as [Hcache Hmutex];
      [congruence|done|].
    destruct (IH s1) as [Hcache' Hmutex']; eauto using step_inv.
    split; [congruence|done].
Qed.

(** X8. [loop] never stops on its own. In every execution the source is closed
    at most once, and as long as [Close] has not closed the stop channel
    the source is open, [done] is open and [loop] is inside its [for]. *)
Theorem source_closed_only_after_Close {Source : Type} (p : PriceProvider Source)
    (schedule : list action) s :
  exec schedule (started p) = Some s →
  (source_closes s ≤ 1)%nat
  ∧ (stopSignal_closed s = false →
     source_closes s = 0%nat
     ∧ done_closed s = false
     ∧ consumer_returned (pc_loop s) = false)
  ∧ (pc_close s = NotCalled → stopSignal_closed s = false).
Proof.
  intros Hexec. pose proof (exec_inv (@range) _ _ _ (inv_started p) Hexec) as Hinv.
  destruct Hinv as (Hstop & _ & Hret & Hsrc & Hdone & _ & _).
  split; [|split].
  - rewrite Hsrc. destruct (pc_loop s); lia.
  - intros Hopen. rewrite Hsrc, Hdone.
    destruct (pc_loop s); simpl in *; try done;
      specialize (Hret eq_refl); congruence.
  - intros Hnot. by rewrite Hstop, Hnot.
Qed.

End Mutex_properties.

(** [reader_sees_stable_cache]: a reader of the provider of [Fixture] holds
    the mutex while a batch arrives and [Close] is called; the batch waits
    at [Lock] and the cache is untouched. *)
Lemma reader_sees_stable_cache_witness :
  ∃ s s',
    PriceProvider.exec (@Fixture.range) [PriceProvider.ReaderLock]
      (PriceProvider.started Fixture.provider) = Some s
    ∧ PriceProvider.mutex s = Some PriceProvider.Reader
    ∧ PriceProvider.exec (@Fixture.range)
        [PriceProvider.SelectUpdates
           {[ "tBTCUSD" := {| RawPrice_Price := 100001.5%float;
                              RawPrice_UpdateTime := 1001 * Second |} ]};
         PriceProvider.CloseCall; PriceProvider.CloseStopSignal] s = Some s'
    ∧ PriceProvider.step (@Fixture.range) PriceProvider.LoopLock s' = None
    ∧ PriceProvider.cache s' = PriceProvider.cache s.
Proof.
  eexists. eexists.
  split; [vm_compute; reflexivity|].
  split; [vm_compute; reflexivity|].
  split; [vm_compute; reflexivity|].
  split; [vm_compute; reflexivity|].
  eapply proj1.
  eapply (reader_sees_stable_cache (@Fixture.range) Fixture.provider
            [PriceProvider.ReaderLock]
            [PriceProvider.SelectUpdates
               {[ "tBTCUSD" := {| RawPrice_Price := 100001.5%float;
                                  RawPrice_UpdateTime := 1001 * Second |} ]};
             PriceProvider.CloseCall; PriceProvider.CloseStopSignal]).
  - vm_compute; reflexivity.
  - vm_compute; reflexivity.
  - intros Hin.
    repeat (apply elem_of_cons in Hin as [Hin|Hin]; [discriminate Hin|]).
    by apply elem_of_nil in Hin.
  - vm_compute; reflexivity.
Defined.

(** [source_closed_only_after_Close]: after a batch was taken and written,
    with [Close] not called, the source of the provider of [Fixture] is
    open and [loop] is back at its [select]. *)
Lemma source_closed_only_after_Close_witness :
  ∃ s,
    PriceProvider.exec (@Fixture.range)
      [PriceProvider.SelectUpdates
         {[ "tETHUSD" := {| RawPrice_Price := 7000.11%float;
                            RawPrice_UpdateTime := 1001 * Second |} ]};
       PriceProvider.LoopLock; PriceProvider.LoopWrite; PriceProvider.LoopUnlock]
      (PriceProvider.started Fixture.provider) = Some s
    ∧ PriceProvider.stopSignal_closed s = false
    ∧ PriceProvider.source_closes s = 0%nat
    ∧ PriceProvider.done_closed s = false.
Proof.
  assert (Hexec : ∃ s,
    PriceProvider.exec (@Fixture.range)
      [PriceProvider.SelectUpdates
         {[ "tETHUSD" := {| RawPrice_Price := 7000.11%float;
                            RawPrice_UpdateTime := 1001 * Second |} ]};
       PriceProvider.LoopLock; PriceProvider.LoopWrite; PriceProvider.LoopUnlock]
      (PriceProvider.started Fixture.provider) = Some s
    ∧ PriceProvider.stopSignal_closed s = false)
    by (eexists; split; vm_compute; reflexivity).
  destruct Hexec as (s & Hexec & Hsignal).
  destruct (source_closed_only_after_Close (@Fixture.range) Fixture.provider
              _ s Hexec) as (_ & Hopen & _).
  destruct (Hopen Hsignal) as (Hsource & Hdone & _).
  exists s. split; [exact Hexec|]. split; [exact Hsignal|].
  split; [exact Hsource | exact Hdone].
Defined.

(** [Close_can_return]: [loop] of the provider of [Fixture] holds a batch
    and waits for the mutex a reader has; the wind-down schedule lets the
    reader unlock, the batch be written, and [Close] return. *)
Lemma Close_can_return_witness :
  ∃ s s',
    PriceProvider.exec (@Fixture.range)
      [PriceProvider.ReaderLock;
       PriceProvider.SelectUpdates
         {[ "tETHUSD" := {| RawPrice_Price := 7000.11%float;
                            RawPrice_UpdateTime := 1001 * Second |} ]}]
      (PriceProvider.started Fixture.provider) = Some s
    ∧ PriceProvider.exec (@Fixture.range) (PriceProvider.wind_down s) s = Some s'
    ∧ PriceProvider.pc_close s' = PriceProvider.Returned.
Proof.
  assert (Hexec : ∃ s,
    PriceProvider.exec (@Fixture.range)
      [PriceProvider.ReaderLock;
       PriceProvider.SelectUpdates
         {[ "tETHUSD" := {| RawPrice_Price := 7000.11%float;
                            RawPrice_UpdateTime := 1001 * Second |} ]}]
      (PriceProvider.started Fixture.provider) = Some s)
    by (eexists; vm_compute; reflexivity).
  destruct Hexec as [s Hexec].
  destruct (Close_can_return (@Fixture.range) Fixture.provider _ s Hexec)
    as (s' & Hdown & Hreturned).
  exists s, s'. split; [exact Hexec|]. split; [exact Hdown | exact Hreturned].
Defined.

(** [Close_blocks_while_consumer_runs]: [loop] of the provider of [Fixture]
    has closed the source but not yet [done]; [Close] cannot receive. *)
Lemma Close_blocks_while_consumer_runs_witness :
  ∃ s,
    PriceProvider.exec (@Fixture.range)
      [PriceProvider.CloseCall; PriceProvider.CloseStopSignal;
       PriceProvider.SelectStop; PriceProvider.LoopSourceClose]
      (PriceProvider.started Fixture.provider) = Some s
    ∧ PriceProvider.pc_loop s = PriceProvider.AtCloseDone
    ∧ PriceProvider.step (@Fixture.range) PriceProvider.CloseReceiveDone s = None.
Proof.
  eexists.
  split; [vm_compute; reflexivity|].
  split; [vm_compute; reflexivity|].
  eapply (Close_blocks_while_consumer_runs (@Fixture.range) Fixture.provider
            [PriceProvider.CloseCall; PriceProvider.CloseStopSignal;
             PriceProvider.SelectStop; PriceProvider.LoopSourceClose]).
  - vm_compute; reflexivity.
  - vm_compute. discriminate.
Defined.

(** ** More on the keyring *)
Section Keyring_consistency.

Variables PubKey PrivKey : Type.
Variable PrivKey_Sign : PrivKey → list byte → list byte + error.

Import Keyring.

Local Abbreviation privKeyKeyring := (Keyring.privKeyKeyring PubKey PrivKey).
Local Abbreviation SignByAddress := (Keyring.SignByAddress PrivKey_Sign).

Implicit Types (p : privKeyKeyring) (address : Address) (msg : list byte).

(** X10. A signature is only ever returned for the held address, made by the
    held private key, and comes with the very public key that
    [KeyByAddress] returns for that address. *)
Theorem signature_only_for_held_address p address msg (signed : list byte)
    (pk : PubKey) :
  SignByAddress p address msg = Ok (signed, pk) →
  address = addr p
  ∧ pk = pubKey p
  ∧ PrivKey_Sign (privKey p) msg = inl signed
  ∧ KeyByAddress p address = Ok {| info_pubKey := pk; info_addr := address |}.
Proof.
  unfold Keyring.SignByAddress.
  destruct (Address_Equals (addr p) address) eqn:Hequals; simpl; [|done].
  apply Address_Equals_eq in Hequals as <-.
  destruct (PrivKey_Sign (privKey p) msg) as [signed'|err]; [|done].
  intros [= <- <-]. repeat split; try done. apply KeyByAddress_held.
Qed.

(** X11. The key info a lookup returns answers with the address that was asked
    for, the held public key and the empty name. *)
Theorem KeyByAddress_info p address (i : info PubKey) :
  KeyByAddress p address = Ok i →
  GetAddress i = address ∧ GetPubKey i = pubKey p ∧ GetName i = "".
Proof.
  unfold Keyring.KeyByAddress.
  destruct (Address_Equals address (addr p)) eqn:Hequals; simpl; [|done].
  apply Address_Equals_eq in Hequals as ->.
  by intros [= <-].
Qed.

End Keyring_consistency.

(** [signature_only_for_held_address] on the keyring of [Fixture]. *)
Lemma signature_only_for_held_address_witness :
  Keyring.SignByAddress Fixture.PrivKey_Sign Fixture.keyring [x02; x01] [x2a]
    = Ok ([x01; x02; x2a], [x02; x01])
  ∧ Keyring.KeyByAddress Fixture.keyring [x02; x01]
    = Ok {| Keyring.info_pubKey := [x02; x01]; Keyring.info_addr := [x02; x01] |}.
Proof.
  assert (Hsigned :
    Keyring.SignByAddress Fixture.PrivKey_Sign Fixture.keyring [x02; x01] [x2a]
    = Ok ([x01; x02; x2a], [x02; x01])) by reflexivity.
  split; [exact Hsigned|].
  exact (proj2 (proj2 (proj2 (signature_only_for_held_address (list byte) (list byte)
           Fixture.PrivKey_Sign Fixture.keyring _ _ _ _ Hsigned)))).
Defined.

(** [KeyByAddress_info] on the keyring of [Fixture]. *)
Lemma KeyByAddress_info_witness :
  ∃ i,
    Keyring.KeyByAddress Fixture.keyring [x02; x01] = Ok i
    ∧ Keyring.GetAddress i = [x02; x01]
    ∧ Keyring.GetPubKey i = [x02; x01]
    ∧ Keyring.GetName i = "".
Proof.
  eexists. split; [reflexivity|].
  eapply (KeyByAddress_info (list byte) (list byte) Fixture.keyring). reflexivity.
Defined.

(** ** [GetAuth] *)
Section GetAuth_properties.

Variables PubKey PrivKey : Type.
Variable PrivKey_PubKey : PrivKey → PubKey.
Variable PubKey_Address : PubKey → Keyring.Address.
Variable PrivKey_Sign : PrivKey → list byte → list byte + error.
Variable secp256k1_PrivKey : list byte → PrivKey.
Variable hex_DecodeString : string → list byte + error.
Variable hex_EncodeToString : list byte → string.
Variable bip39_NewSeed : string → string → list byte.
Variable hd_ComputeMastersFromSeed : list byte → list byte * list byte.
Variable hd_DerivePrivateKeyForPath : list byte → list byte → string → list byte + error.

(** Decoding undoes encoding, as [encoding/hex] has it. *)
Hypothesis hex_round_trip :
  ∀ b : list byte, hex_DecodeString (hex_EncodeToString b) = inl b.

Local Abbreviation GetAuth :=
  (Auth.GetAuth PubKey PrivKey PrivKey_PubKey PubKey_Address secp256k1_PrivKey
     hex_DecodeString hex_EncodeToString bip39_NewSeed hd_ComputeMastersFromSeed
     hd_DerivePrivateKeyForPath).

(** X12. [GetAuth] panics exactly when the derivation of the private key fails,
    with the error of the derivation. Otherwise the hexadecimal detour is
    lossless: the keyring holds the derived key, its public key and the
    address of that public key; both addresses returned are that address;
    and the keyring signs for it with the derived key. *)
Theorem GetAuth_keyring (mnemonic : string) (master ch : list byte) :
  hd_ComputeMastersFromSeed (bip39_NewSeed mnemonic "") = (master, ch) →
  match hd_DerivePrivateKeyForPath master ch "m/44'/118'/0'/0/0" with
  | inr err => GetAuth mnemonic = Panic err
  | inl priv =>
      let key := secp256k1_PrivKey priv in
      let kr := {| Keyring.addr := PubKey_Address (PrivKey_PubKey key);
                   Keyring.pubKey := PrivKey_PubKey key;
                   Keyring.privKey := key |} in
      GetAuth mnemonic = Ok (kr, Keyring.addr kr, Keyring.addr kr)
      ∧ ∀ msg : list byte,
          Keyring.SignByAddress PrivKey_Sign kr (Keyring.addr kr) msg =
            match PrivKey_Sign key msg with
            | inl signed => Ok (signed, PrivKey_PubKey key)
            | inr err => Err err
            end
  end.
Proof.
  intros Hmasters. unfold Auth.GetAuth. rewrite Hmasters.
  destruct (hd_DerivePrivateKeyForPath master ch _) as [priv|err]; [|done].
  unfold Keyring.newPrivKeyKeyring. rewrite hex_round_trip. simpl.
  split; [done|]. intros msg. apply SignByAddress_held.
Qed.

End GetAuth_properties.

(** The hexadecimal stand-in of [Fixture] decodes what it encodes. *)
Lemma Fixture_hex_of_byte_decode (b : byte) (cs : list Ascii.ascii) :
  Fixture.hex_decode (Fixture.hex_of_byte b ++ cs) =
    match Fixture.hex_decode cs with
    | inl bs => inl (b :: bs)
    | inr err => inr err
    end.
Proof. destruct b; reflexivity. Qed.

Lemma Fixture_hex_round_trip (bs : list byte) :
  Fixture.hex_DecodeString (Fixture.hex_EncodeToString bs) = inl bs.
Proof.
  unfold Fixture.hex_DecodeString, Fixture.hex_EncodeToString.
  rewrite String.list_ascii_of_string_of_list_ascii.
  induction bs as [|b bs IH]; [done|].
  rewrite fmap_cons. cbn [concat].
  rewrite Fixture_hex_of_byte_decode. by rewrite IH.
Qed.

(** [GetAuth_keyring] with the stand-ins of [Fixture]: the mnemonic "ab"
    yields a keyring, the empty mnemonic a panic of the derivation. *)
Lemma GetAuth_keyring_witness :
  (∃ kr, Fixture.GetAuth "ab" = Ok (kr, Keyring.addr kr, Keyring.addr kr)
         ∧ Keyring.privKey kr = [x61; x62; x62; x61])
  ∧ Fixture.GetAuth "" = Panic "empty master key".
Proof.
  split.
  - pose proof (GetAuth_keyring (list byte) (list byte) Fixture.PrivKey_PubKey
                  Fixture.PubKey_Address Fixture.PrivKey_Sign (fun b => b)
                  Fixture.hex_DecodeString Fixture.hex_EncodeToString
                  Fixture.bip39_NewSeed Fixture.hd_ComputeMastersFromSeed
                  Fixture.hd_DerivePrivateKeyForPath Fixture_hex_round_trip
                  "ab" [x61; x62] [x62; x61] eq_refl) as Hauth.
    cbv beta iota zeta delta [Fixture.hd_DerivePrivateKeyForPath] in Hauth.
    destruct Hauth as [Hauth _].
    eexists. split; [exact Hauth|]. reflexivity.
  - exact (GetAuth_keyring (list byte) (list byte) Fixture.PrivKey_PubKey
             Fixture.PubKey_Address Fixture.PrivKey_Sign (fun b => b)
             Fixture.hex_DecodeString Fixture.hex_EncodeToString
             Fixture.bip39_NewSeed Fixture.hd_ComputeMastersFromSeed
             Fixture.hd_DerivePrivateKeyForPath Fixture_hex_round_trip
             "" [] [] eq_refl).
Defined.

(** ** The configuration *)

(** X13. [Validate] accepts a configuration exactly when the chain id, the
    mnemonic and both endpoints are non-empty; the map of the exchanges is
    not looked at. The error names the first empty field, in the order
    chain id, mnemonic, websocket endpoint, gRPC endpoint. *)
Theorem Validate_accepts_iff (c : Config.Config) :
  (Config.Validate c = None ↔
   Config.ChainID c ≠ "" ∧ Config.FeederMnemonic c ≠ ""
   ∧ Config.WebsocketEndpoint c ≠ "" ∧ Config.GRPCEndpoint c ≠ "")
  ∧ (Config.ChainID c = "" → Config.Validate c = Some "no chain id")
  ∧ (Config.ChainID c ≠ "" → Config.FeederMnemonic c = "" →
     Config.Validate c = Some "no feeder mnemonic")
  ∧ (Config.ChainID c ≠ "" → Config.FeederMnemonic c ≠ "" →
     Config.WebsocketEndpoint c = "" →
     Config.Validate c = Some "no websocket endpoint")
  ∧ (Config.ChainID c ≠ "" → Config.FeederMnemonic c ≠ "" →
     Config.WebsocketEndpoint c ≠ "" → Config.GRPCEndpoint c = "" →
     Config.Validate c = Some "no grpc endpoint")
  ∧ (∀ m, Config.Validate
            {| Config.ExchangesToPairToSymbolMap := m;
               Config.GRPCEndpoint := Config.GRPCEndpoint c;
               Config.WebsocketEndpoint := Config.WebsocketEndpoint c;
               Config.FeederMnemonic := Config.FeederMnemonic c;
               Config.ChainID := Config.ChainID c |} = Config.Validate c).
Proof.
  unfold Config.Validate. simpl.
  repeat case_bool_decide; intuition congruence.
Qed.

(** [Validate_accepts_iff] on a configuration without mnemonic and without
    websocket endpoint: the mnemonic is the one reported. *)
Lemma Validate_accepts_iff_witness :
  Config.Validate
    {| Config.ExchangesToPairToSymbolMap := ∅;
       Config.GRPCEndpoint := "localhost:9090";
       Config.WebsocketEndpoint := "";
       Config.FeederMnemonic := "";
       Config.ChainID := "nibiru-localnet-0" |} = Some "no feeder mnemonic"
  ∧ Config.Validate
      {| Config.ExchangesToPairToSymbolMap := ∅;
         Config.GRPCEndpoint := "localhost:9090";
         Config.WebsocketEndpoint := "ws://localhost:26657/websocket";
         Config.FeederMnemonic := "guard cream sadness";
         Config.ChainID := "nibiru-localnet-0" |} = None.
Proof.
  split.
  - destruct (Validate_accepts_iff
                {| Config.ExchangesToPairToSymbolMap := ∅;
                   Config.GRPCEndpoint := "localhost:9090";
                   Config.WebsocketEndpoint := "";
                   Config.FeederMnemonic := "";
                   Config.ChainID := "nibiru-localnet-0" |})
      as (_ & _ & Hmnemonic & _).
    apply Hmnemonic; [discriminate|reflexivity].
  - destruct (Validate_accepts_iff
                {| Config.ExchangesToPairToSymbolMap := ∅;
                   Config.GRPCEndpoint := "localhost:9090";
                   Config.WebsocketEndpoint := "ws://localhost:26657/websocket";
                   Config.FeederMnemonic := "guard cream sadness";
                   Config.ChainID := "nibiru-localnet-0" |})
      as ([_ Haccepts] & _).
    apply Haccepts. repeat split; discriminate.
Defined.

Section Get_properties.

Variable Getenv : string → string.
Variable json_Unmarshal : string → option (gmap string (gmap string string)).
Variable NewAssetPair : string → AssetPair + error.
Variable range : ∀ (K : Type) `{Countable K} (V : Type), gmap K V → list (K * V).
Hypothesis range_visits_once :
  ∀ (K : Type) `{Countable K} (V : Type) (m : gmap K V),
    range K V m ≡ₚ map_to_list m.

Local Abbreviation MustNewAssetPair := (Config.MustNewAssetPair NewAssetPair).
Local Abbreviation pairToSymbolMap := (Config.pairToSymbolMap NewAssetPair (@range)).
Local Abbreviation exchangesToPairToSymbolMap :=
  (Config.exchangesToPairToSymbolMap NewAssetPair (@range)).
Local Abbreviation Get := (Config.Get Getenv json_Unmarshal NewAssetPair (@range)).
Local Abbreviation MustGet :=
  (Config.MustGet Getenv json_Unmarshal NewAssetPair (@range)).

(** The body of the inner loop of [Get]. *)
Local Abbreviation inner_step :=
  (fun (acc : result (gmap AssetPair Symbol)) (kv : string * string) =>
     m ← acc; pair ← MustNewAssetPair kv.1; Ok (<[pair := kv.2]> m)).

Lemma range_elem `{Countable K} {V : Type} (m : gmap K V) (k : K) (v : V) :
  (k, v) ∈ range K V m ↔ m !! k = Some v.
Proof. rewrite range_visits_once. apply elem_of_map_to_list. Qed.

Lemma inner_fold_panicked (l : list (string * string)) (msg : string) :
  foldl inner_step (Panic msg) l = Panic msg.
Proof. induction l as [|kv l IH]; [done|]. simpl. apply IH. Qed.

(** A panic of the loop is the error of a pair it visited. *)
Lemma inner_fold_panic_inv (l : list (string * string)) (m0 : gmap AssetPair Symbol)
    (msg : string) :
  foldl inner_step (Ok m0) l = Panic msg →
  ∃ s sym, (s, sym) ∈ l ∧ NewAssetPair s = inr msg.
Proof.
  revert m0. induction l as [|[s sym] l IH]; intros m0 Hfold; [done|].
  simpl in Hfold. unfold Config.MustNewAssetPair in Hfold.
  destruct (NewAssetPair s) as [pair|err] eqn:Hpair; simpl in Hfold.
  - destruct (IH _ Hfold) as (s' & sym' & Hin & Hbad).
    exists s', sym'. split; [by apply list_elem_of_further|done].
  - rewrite inner_fold_panicked in Hfold. injection Hfold as ->.
    exists s, sym. split; [apply list_elem_of_here|done].
Qed.

Lemma inner_fold_not_Err (l : list (string * string)) (m0 : gmap AssetPair Symbol)
    (e : error) :
  foldl inner_step (Ok m0) l ≠ Err e.
Proof.
  revert m0. induction l as [|[s sym] l IH]; intros m0; [done|].
  simpl. unfold Config.MustNewAssetPair.
  destruct (NewAssetPair s) as [pair|err]; simpl; [apply IH|].
  by rewrite inner_fold_panicked.
Qed.

(** With one rejected pair among those visited, the loop panics. *)
Lemma inner_fold_rejected (l : list (string * string)) (m0 : gmap AssetPair Symbol)
    (s sym : string) (e : error) :
  (s, sym) ∈ l → NewAssetPair s = inr e →
  ∃ msg, foldl inner_step (Ok m0) l = Panic msg.
Proof.
  intros Hin Hbad.
  destruct (foldl inner_step (Ok m0) l) as [m|e'|msg] eqn:Hfold; [|  |eauto].
  - exfalso. revert m0 m Hfold.
    induction l as [|[s' sym'] l IH]; intros m0 m Hfold;
      [by apply elem_of_nil in Hin|].
    simpl in Hfold. unfold Config.MustNewAssetPair in Hfold.
    apply elem_of_cons in Hin as [[= <- <-]|Hin].
    + rewrite Hbad in Hfold. simpl in Hfold.
      by rewrite inner_fold_panicked in Hfold.
    + destruct (NewAssetPair s') as [pair|err]; simpl in Hfold.
      * eauto.
      * by rewrite inner_fold_panicked in Hfold.
  - by apply inner_fold_not_Err in Hfold.
Qed.

(** When the loop returns, every entry of the result comes from an entry
    it visited (or was there before), and every visited entry has its pair
    in the result. *)
Lemma inner_fold_returned (l : list (string * string)) (m0 m : gmap AssetPair Symbol) :
  foldl inner_step (Ok m0) l = Ok m →
  (∀ pair sym, m !! pair = Some sym →
     m0 !! pair = Some sym ∨ ∃ s, (s, sym) ∈ l ∧ NewAssetPair s = inl pair)
  ∧ (∀ s sym, (s, sym) ∈ l → ∃ pair, NewAssetPair s = inl pair ∧ is_Some (m !! pair))
  ∧ (∀ pair, is_Some (m0 !! pair) → is_Some (m !! pair)).
Proof.
  revert m0. induction l as [|[s sym] l IH]; intros m0 Hfold.
  - injection Hfold as <-. split; [eauto|]. split; [|done].
    intros s sym Hin. by apply elem_of_nil in Hin.
  - simpl in Hfold. unfold Config.MustNewAssetPair in Hfold.
    destruct (NewAssetPair s) as [pair|err] eqn:Hpair; simpl in Hfold;
      [|by rewrite inner_fold_panicked in Hfold].
    destruct (IH _ Hfold) as (Hfrom & Hall & Hkeep).
    split; [|split].
    + intros pair' sym' Hlookup.
      destruct (Hfrom _ _ Hlookup) as [Hold|(s' & Hin & Hok)].
      * apply lookup_insert_Some in Hold as [[<- <-]|[_ Hold]]; [|by left].
        right. exists s. split; [apply list_elem_of_here|done].
      * right. exists s'. split; [by apply list_elem_of_further|done].
    + intros s' sym' Hin. apply elem_of_cons in Hin as [[= -> ->]|Hin]; [|eauto].
      exists pair. split; [done|]. apply Hkeep. rewrite lookup_insert_eq. eauto.
    + intros pair' Hsome. apply Hkeep.
      destruct (decide (pair = pair')) as [->|Hne].
      * rewrite lookup_insert_eq. eauto.
      * by rewrite lookup_insert_ne.
Qed.

Local Abbreviation pairs_of := (Config.pairs_of NewAssetPair).

Lemma pairToSymbolMap_outcome (symbolMap : gmap string string) :
  match pairToSymbolMap symbolMap with
  | Ok m => pairs_of symbolMap m
  | Panic msg => ∃ s sym, symbolMap !! s = Some sym ∧ NewAssetPair s = inr msg
  | Err _ => False
  end.
Proof.
  unfold Config.pairToSymbolMap.
  destruct (foldl _ _ _) as [m|e|msg] eqn:Hfold.
  - destruct (inner_fold_returned _ _ _ Hfold) as (Hfrom & Hall & _). split.
    + intros pair sym Hlookup.
      destruct (Hfrom _ _ Hlookup) as [Hempty|(s & Hin & Hok)]; [done|].
      exists s. by rewrite <- range_elem.
    + intros s sym Hin. apply Hall with sym. by rewrite range_elem.
  - by apply inner_fold_not_Err in Hfold.
  - destruct (inner_fold_panic_inv _ _ _ Hfold) as (s & sym & Hin & Hbad).
    exists s, sym. by rewrite <- range_elem.
Qed.

Lemma pairToSymbolMap_rejected (symbolMap : gmap string string) (s sym : string)
    (e : error) :
  symbolMap !! s = Some sym → NewAssetPair s = inr e →
  ∃ msg, pairToSymbolMap symbolMap = Panic msg.
Proof.
  intros Hin Hbad. unfold Config.pairToSymbolMap.
  apply inner_fold_rejected with s sym e; [by rewrite range_elem|done].
Qed.

(** The body of the outer loop of [Get]. *)
Local Abbreviation outer_step :=
  (fun (acc : result (gmap string (gmap AssetPair Symbol)))
       (kv : string * gmap string string) =>
     m ← acc; inner ← pairToSymbolMap kv.2; Ok (<[kv.1 := inner]> m)).

Lemma outer_fold_panicked (l : list (string * gmap string string)) (msg : string) :
  foldl outer_step (Panic msg) l = Panic msg.
Proof. induction l as [|kv l IH]; [done|]. simpl. apply IH. Qed.

Lemma outer_fold_outcome (l : list (string * gmap string string))
    (m0 : gmap string (gmap AssetPair Symbol)) :
  NoDup l.*1 →
  match foldl outer_step (Ok m0) l with
  | Ok m =>
      (∀ ex sm, (ex, sm) ∈ l →
         ∃ inner, pairToSymbolMap sm = Ok inner ∧ m !! ex = Some inner)
      ∧ (∀ ex, ex ∉ l.*1 → m !! ex = m0 !! ex)
  | Panic msg => ∃ ex sm, (ex, sm) ∈ l ∧ pairToSymbolMap sm = Panic msg
  | Err _ => False
  end.
Proof.
  revert m0. induction l as [|[ex0 sm0] l IH]; intros m0 Hnodup.
  - simpl. split; [|done]. intros ex sm Hin. by apply elem_of_nil in Hin.
  - rewrite fmap_cons in Hnodup. apply NoDup_cons in Hnodup as [Hfresh Hnodup].
    cbn [foldl]. cbn [fst snd].
    pose proof (pairToSymbolMap_outcome sm0) as Hinner.
    destruct (pairToSymbolMap sm0) as [inner|e|msg0] eqn:Hsm0; [|done|].
    + simpl. specialize (IH (<[ex0 := inner]> m0) Hnodup).
      destruct (foldl _ _ l) as [m|e|msg]; [|done|].
      * destruct IH as [Hall Hrest]. split.
        -- intros ex sm Hin. apply elem_of_cons in Hin as [[= -> ->]|Hin]; [|eauto].
           exists inner. split; [done|].
           rewrite Hrest by done. apply lookup_insert_eq.
        -- intros ex Hnot. change (ex ∉ ex0 :: l.*1) in Hnot.
           apply not_elem_of_cons in Hnot as [Hne Hnot].
           rewrite Hrest by done. by rewrite lookup_insert_ne.
      * destruct IH as (ex & sm & Hin & Hpanic).
        exists ex, sm. split; [by apply list_elem_of_further|done].
    + simpl. rewrite outer_fold_panicked.
      exists ex0, sm0. split; [apply list_elem_of_here|done].
Qed.

Lemma range_keys `{Countable K} {V : Type} (m : gmap K V) (k : K) :
  k ∈ (range K V m).*1 ↔ is_Some (m !! k).
Proof.
  rewrite list_elem_of_fmap. split.
  - intros ([k' v] & -> & Hin). apply range_elem in Hin. eauto.
  - intros [v Hv]. exists (k, v). split; [done|]. by apply range_elem.
Qed.

Lemma range_keys_NoDup `{Countable K} {V : Type} (m : gmap K V) :
  NoDup (range K V m).*1.
Proof. rewrite range_visits_once. apply NoDup_fst_map_to_list. Qed.

(** X14. When the document parses, [Get] panics exactly when one of its pairs,
    of whatever exchange, is rejected by [NewAssetPair]; the panic carries
    the error of a rejected pair. No other pair and no variable of the
    environment prevents or causes the panic. *)
Theorem Get_panics_iff_invalid_pair (doc : gmap string (gmap string string)) :
  json_Unmarshal (Getenv "EXCHANGE_SYMBOLS_MAP") = Some doc →
  (∀ msg, Get = Panic msg →
     ∃ ex sm s sym,
       doc !! ex = Some sm ∧ sm !! s = Some sym ∧ NewAssetPair s = inr msg)
  ∧ (∀ ex sm s sym e,
       doc !! ex = Some sm → sm !! s = Some sym → NewAssetPair s = inr e →
       ∃ msg, Get = Panic msg).
Proof.
  intros Hdoc. unfold Config.Get. rewrite Hdoc.
  unfold Config.exchangesToPairToSymbolMap.
  pose proof (outer_fold_outcome
                (range string (gmap string string) doc) ∅ (range_keys_NoDup doc))
    as Houter.
  destruct (foldl _ _ _) as [m|e|msg]; [|done|]; simpl.
  - split; [done|]. intros ex sm s sym e Hex Hs Hbad.
    destruct Houter as [Hall _].
    destruct (Hall ex sm) as (inner & Hinner & _); [by apply range_elem|].
    destruct (pairToSymbolMap_rejected sm s sym e Hs Hbad) as [msg Hpanic].
    congruence.
  - split; [|eauto]. intros msg' [= <-].
    destruct Houter as (ex & sm & Hin & Hpanic).
    pose proof (pairToSymbolMap_outcome sm) as Hinner. rewrite Hpanic in Hinner.
    destruct Hinner as (s & sym & Hs & Hbad).
    exists ex, sm, s, sym. split; [by apply range_elem|done].
Qed.

(** X15. When the document parses and [NewAssetPair] takes all its pairs, [Get]
    returns a configuration together with the verdict of [Validate] on it
    (nil or not). The four strings are the variables of the environment;
    the map has the exchanges of the document and no other, and under each
    exchange the pairs of its symbols. *)
Theorem Get_returns_document (doc : gmap string (gmap string string)) :
  json_Unmarshal (Getenv "EXCHANGE_SYMBOLS_MAP") = Some doc →
  (∀ ex sm s sym, doc !! ex = Some sm → sm !! s = Some sym →
     ∃ pair, NewAssetPair s = inl pair) →
  ∃ conf,
    Get = Ok (Some conf, Config.Validate conf)
    ∧ Config.ChainID conf = Getenv "CHAIN_ID"
    ∧ Config.GRPCEndpoint conf = Getenv "GRPC_ENDPOINT"
    ∧ Config.WebsocketEndpoint conf = Getenv "WEBSOCKET_ENDPOINT"
    ∧ Config.FeederMnemonic conf = Getenv "FEEDER_MNEMONIC"
    ∧ (∀ ex, Config.ExchangesToPairToSymbolMap conf !! ex = None ↔ doc !! ex = None)
    ∧ (∀ ex sm, doc !! ex = Some sm →
         ∃ m, Config.ExchangesToPairToSymbolMap conf !! ex = Some m ∧ pairs_of sm m).
Proof.
  intros Hdoc Hpairs. unfold Config.Get. rewrite Hdoc.
  unfold Config.exchangesToPairToSymbolMap.
  pose proof (outer_fold_outcome
                (range string (gmap string string) doc) ∅ (range_keys_NoDup doc))
    as Houter.
  destruct (foldl _ _ _) as [m|e|msg]; [|done|]; simpl.
  - destruct Houter as [Hall Hrest].
    eexists. split; [reflexivity|]. simpl. repeat (split; [reflexivity|]). split.
    + intros ex. destruct (doc !! ex) as [sm|] eqn:Hex.
      * destruct (Hall ex sm) as (inner & _ & Hlookup); [by apply range_elem|].
        rewrite Hlookup. split; discriminate.
      * rewrite Hrest; [by rewrite lookup_empty|].
        rewrite range_keys, Hex. by intros [? ?].
    + intros ex sm Hex.
      destruct (Hall ex sm) as (inner & Hinner & Hlookup); [by apply range_elem|].
      exists inner. split; [done|].
      pose proof (pairToSymbolMap_outcome sm) as Hspec. by rewrite Hinner in Hspec.
  - exfalso. destruct Houter as (ex & sm & Hin & Hpanic).
    apply range_elem in Hin.
    pose proof (pairToSymbolMap_outcome sm) as Hinner. rewrite Hpanic in Hinner.
    destruct Hinner as (s & sym & Hs & Hbad).
    destruct (Hpairs ex sm s sym Hin Hs) as [pair Hok]. congruence.
Qed.

Lemma Validate_None (c : Config.Config) :
  Config.Validate c = None →
  Config.ChainID c ≠ "" ∧ Config.FeederMnemonic c ≠ ""
  ∧ Config.WebsocketEndpoint c ≠ "" ∧ Config.GRPCEndpoint c ≠ "".
Proof. unfold Config.Validate. repeat case_bool_decide; done. Qed.

(** X16. [MustGet] never hands out a configuration that [Validate] rejects:
    what it returns is a configuration made from the environment whose
    chain id, mnemonic and endpoints are all non-empty. *)
Theorem MustGet_returns_valid (c : option Config.Config) :
  MustGet = Ok c →
  ∃ conf,
    c = Some conf
    ∧ Get = Ok (Some conf, None)
    ∧ Config.Validate conf = None
    ∧ Config.ChainID conf = Getenv "CHAIN_ID" ∧ Config.ChainID conf ≠ ""
    ∧ Config.FeederMnemonic conf = Getenv "FEEDER_MNEMONIC"
    ∧ Config.FeederMnemonic conf ≠ ""
    ∧ Config.WebsocketEndpoint conf = Getenv "WEBSOCKET_ENDPOINT"
    ∧ Config.WebsocketEndpoint conf ≠ ""
    ∧ Config.GRPCEndpoint conf = Getenv "GRPC_ENDPOINT"
    ∧ Config.GRPCEndpoint conf ≠ "".
Proof.
  unfold Config.MustGet, Config.Get.
  destruct (json_Unmarshal _) as [doc|]; [|done].
  destruct (exchangesToPairToSymbolMap doc) as [m|e|msg]; [|done..].
  simpl. destruct (Config.Validate _) as [err|] eqn:Hvalid; [done|].
  intros [= <-]. eexists. split; [reflexivity|]. split; [reflexivity|].
  destruct (Validate_None _ Hvalid) as (? & ? & ? & ?).
  repeat split; done.
Qed.

(** X17. When the document does not parse, [Get] returns no configuration and
    the parse error, whatever the rest of the environment holds, and
    [MustGet] panics with that error. *)
Theorem Get_rejects_document :
  json_Unmarshal (Getenv "EXCHANGE_SYMBOLS_MAP") = None →
  Get = Ok (None, Some "failed to parse EXCHANGE_SYMBOLS_MAP: invalid json")
  ∧ MustGet =
      Panic "config error! check the environment: failed to parse EXCHANGE_SYMBOLS_MAP: invalid json".
Proof.
  intros Hdoc. unfold Config.MustGet, Config.Get. by rewrite Hdoc.
Qed.

End Get_properties.

(** [Get] with the environment and the parser of [Fixture]. *)
Example Get_of_Fixture :
  match Fixture.Get with
  | Ok (Some conf, None) =>
      Config.ChainID conf = "nibiru-localnet-0"
      ∧ map_to_list <$> (Config.ExchangesToPairToSymbolMap conf !! "bitfinex")
        = Some [(Pair_BTC_NUSD, "tBTCUSD")]
  | _ => False
  end.
Proof. vm_compute. done. Qed.

(** [Get_returns_document] with the environment of [Fixture], whose
    document has the one pair ubtc:unusd under bitfinex. *)
Lemma Get_returns_document_witness :
  ∃ conf,
    Fixture.Get = Ok (Some conf, Config.Validate conf)
    ∧ Config.ChainID conf = "nibiru-localnet-0"
    ∧ ∃ m, Config.ExchangesToPairToSymbolMap conf !! "bitfinex" = Some m.
Proof.
  destruct (Get_returns_document Fixture.Getenv Fixture.json_Unmarshal
              Fixture.NewAssetPair (@Fixture.range) (@Fixture_range_visits_once)
              {[ "bitfinex" := {[ "ubtc:unusd" := "tBTCUSD" ]} ]})
    as (conf & Hget & Hchain & _ & _ & _ & _ & Hpairs).
  - vm_compute. reflexivity.
  - intros ex sm s sym Hex Hs.
    apply lookup_singleton_Some in Hex as [<- <-].
    apply lookup_singleton_Some in Hs as [<- <-].
    eexists. vm_compute. reflexivity.
  - exists conf. split; [exact Hget|]. split; [exact Hchain|].
    destruct (Hpairs "bitfinex" {[ "ubtc:unusd" := "tBTCUSD" ]}) as (m & Hm & _).
    + apply lookup_singleton_eq.
    + exists m. exact Hm.
Defined.

(** [Get_panics_iff_invalid_pair]: the document names the pair "ubtc",
    which has no quote denomination. *)
Lemma Get_panics_iff_invalid_pair_witness :
  ∃ msg,
    Config.Get
      (fun name => if decide (name = "EXCHANGE_SYMBOLS_MAP")
                   then Fixture.json_of "bitfinex" "ubtc" "tBTCUSD"
                   else Fixture.Getenv name)
      Fixture.json_Unmarshal Fixture.NewAssetPair (@Fixture.range) = Panic msg.
Proof.
  destruct (Get_panics_iff_invalid_pair
              (fun name => if decide (name = "EXCHANGE_SYMBOLS_MAP")
                           then Fixture.json_of "bitfinex" "ubtc" "tBTCUSD"
                           else Fixture.Getenv name)
              Fixture.json_Unmarshal Fixture.NewAssetPair (@Fixture.range)
              (@Fixture_range_visits_once)
              {[ "bitfinex" := {[ "ubtc" := "tBTCUSD" ]} ]}) as [_ Hrejected].
  - vm_compute. reflexivity.
  - apply (Hrejected "bitfinex" {[ "ubtc" := "tBTCUSD" ]} "ubtc" "tBTCUSD"
             "invalid pair: ubtc").
    + apply lookup_singleton_eq.
    + apply lookup_singleton_eq.
    + vm_compute. reflexivity.
Defined.

(** [MustGet_returns_valid] with the environment of [Fixture]. *)
Lemma MustGet_returns_valid_witness :
  ∃ conf,
    Fixture.MustGet = Ok (Some conf)
    ∧ Config.Validate conf = None
    ∧ Config.ChainID conf = "nibiru-localnet-0".
Proof.
  assert (Hmust : ∃ c, Fixture.MustGet = Ok c) by (eexists; vm_compute; reflexivity).
  destruct Hmust as [c Hmust].
  destruct (MustGet_returns_valid Fixture.Getenv Fixture.json_Unmarshal
              Fixture.NewAssetPair (@Fixture.range) c Hmust)
    as (conf & -> & _ & Hvalid & Hchain & _).
  exists conf. split; [exact Hmust|]. split; [exact Hvalid|].
  etransitivity; [exact Hchain|]. vm_compute. reflexivity.
Defined.

(** [Get_rejects_document]: an environment without any variable; the
    parser of [Fixture] does not take the empty document. *)
Lemma Get_rejects_document_witness :
  Config.Get (fun _ => "") Fixture.json_Unmarshal Fixture.NewAssetPair (@Fixture.range)
    = Ok (None, Some "failed to parse EXCHANGE_SYMBOLS_MAP: invalid json")
  ∧ Config.MustGet (fun _ => "") Fixture.json_Unmarshal Fixture.NewAssetPair
      (@Fixture.range)
    = Panic "config error! check the environment: failed to parse EXCHANGE_SYMBOLS_MAP: invalid json".
Proof.
  apply (Get_rejects_document (fun _ => "") Fixture.json_Unmarshal
           Fixture.NewAssetPair (@Fixture.range)).
  vm_compute. reflexivity.
Defined.
